(** * Pastel Space Shooter (Assignment_20/space_shooter.py)

  A shallow embedding of the simulation core of [space_shooter.py]: the
  sprite classes, the spawner, the collision pass and the body of the frame
  loop, followed by the properties of the specification.

  Numbers are the program's own.  A Python [float] and a coordinate of a
  pygame [Vector2] are IEEE 754 binary64 values, modelled by Rocq's
  primitive [float] (round to nearest, ties to even, like CPython).  A
  Python [int] (score, lives) and a coordinate of a pygame [Rect] are
  integers, modelled by [Z].

  What is left out is what draws: surfaces, images (and the tilt that only
  rotates the player's image), fonts, the display.

  pygame is the program's library, and the model follows it where the
  program calls it: a [Rect] holds C [int]s, and a float assigned to one of
  its coordinates is rounded to the nearest integer, halves away from zero
  (pygame's [pg_round]); [colliderect] is the strict overlap of two
  rectangles; a [Group] keeps its sprites in the order they were added, and
  [kill()] takes a sprite out of its groups; [spritecollide] and
  [groupcollide], called with their kill flags set, kill every sprite they
  report.

  One thing pygame does is not followed: an assignment to [rect.center] of
  a float outside the range of a C [int] raises [TypeError], which ends the
  program.  The model is the run that does not raise; [Rect.raises] is
  pygame's range check, and the statements on bounding boxes say where they
  rely on it. *)

From Stdlib Require Import ZArith List Bool Lia Floats Permutation.
Import ListNotations.

Local Open Scope Z_scope.
Set Warnings "-inexact-float".

(** ** Python and C numerics *)

Module Py.

(** [float(n)] for a Python [int] [n], as the mixed operations [n / 50.0]
    or [900 - 24.0] convert it: the nearest binary64 value.  (CPython
    raises [OverflowError] when [|n| >= 2^1024]; the model gives an infinity
    there.) *)
Definition float_of_int (n : Z) : float :=
  SF2Prim (binary_normalize prec emax n 0 false).

(** The integer part of a float, rounded toward zero: Python's [int(x)].
    On a NaN or an infinity Python raises; the model gives 0 there. *)
Definition trunc (x : float) : Z :=
  match Prim2SF x with
  | S754_finite s m e => cond_Zopp s (Z.shiftl (Zpos m) e)
  | _ => 0
  end.

(** The builtin [max(a, b)] keeps [a] unless [b > a]. *)
Definition max (a b : float) : float := if (a <? b)%float then b else a.

(** The builtin [min(a, b)] keeps [a] unless [b < a]. *)
Definition min (a b : float) : float := if (b <? a)%float then b else a.

(** [a >= b], [a > b] and [a <= b] on floats (all false on a NaN). *)
Definition ge (a b : float) : bool := (b <=? a)%float.
Definition gt (a b : float) : bool := (b <? a)%float.
Definition le (a b : float) : bool := (a <=? b)%float.

(** [a / b] for two Python [int]s (true division), for operands that a
    binary64 value holds exactly. *)
Definition int_truediv (a b : Z) : float :=
  (float_of_int a / float_of_int b)%float.

End Py.

(** C's arithmetic, as pygame uses it on the floats given to a [Rect]. *)
Module C.
Definition INT_MAX : Z := 2147483647.
Definition INT_MIN : Z := -2147483648.

(** [floor(x)] and [ceil(x)] of [math.h], for a finite [x], as integers.
    (On a NaN or an infinity they return their argument, whose cast to [int]
    is undefined; the model gives 0 there.) *)
Definition floor (x : float) : Z :=
  match Prim2SF x with
  | S754_finite s m e => Z.shiftl (cond_Zopp s (Zpos m)) e
  | _ => 0
  end.

Definition ceil (x : float) : Z :=
  match Prim2SF x with
  | S754_finite s m e => - Z.shiftl (cond_Zopp (negb s) (Zpos m)) e
  | _ => 0
  end.

(** pygame's [pg_round(d)], [(d < 0) ? ceil(d - 0.5) : floor(d + 0.5)], cast
    to [int]: the nearest integer, halves away from zero.  The sum and the
    difference are binary64 operations, and round. *)
Definition pg_round (d : float) : Z :=
  if (d <? 0)%float then ceil (d - 0.5)%float else floor (d + 0.5)%float.
End C.

(** ** Configuration *)

Definition WIDTH : Z := 900.
Definition HEIGHT : Z := 600.
Definition FPS : Z := 60.

Definition PLAYER_SPEED : Z := 340.
Definition PLAYER_SIZE : Z * Z := (48, 36).
Definition PLAYER_FIRE_COOLDOWN : float := 0.18%float.

Definition BULLET_SPEED : Z := 700.
Definition BULLET_SIZE : Z * Z := (6, 14).

Definition ENEMY_SPEED_MIN : Z := 60.
Definition ENEMY_SPEED_MAX : Z := 140.
Definition ENEMY_SPAWN_INTERVAL : float := 1.0%float.
Definition ENEMY_SIZE : Z * Z := (42, 30).

Definition PARTICLE_COUNT : nat := 18.
Definition PARTICLE_SPEED : Z := 180.
Definition PARTICLE_LIFETIME : float := 0.6%float.

(** ** Utilities *)

Definition clamp (v a b : float) : float := Py.max a (Py.min b v).


(** ** The platform: libm and the random source

  [math.sin] and [math.cos] are the C library's, and [random] is a
  Mersenne twister seeded from the system: both are interfaces here. *)

Class Libm := { sin : float -> float; cos : float -> float }.

Class RandomSource (R : Type) := {
  (** [random.random()] *)
  random : R -> float * R;
  (** [random.randint(a, b)] *)
  randint : Z -> Z -> R -> Z * R
}.

Definition math_pi : float := 3.141592653589793%float.
Definition math_tau : float := 6.283185307179586%float.

Section Random.
Context {R : Type} `{RandomSource R}.

(** [random.uniform(a, b)] is [a + (b - a) * random()].  The callers that
    pass [int]s pass small ones, whose difference and conversions are
    exact, so the float form covers them. *)
Definition uniform (a b : float) (r : R) : float * R :=
  let (u, r') := random r in ((a + (b - a) * u)%float, r').

(** [random.choices([0, 1, 2], weights=[0.2, 0.4, 0.4])[0]]: a bisection
    of [random() * total] in the accumulated weights. *)
Definition choices_layer (r : R) : Z * R :=
  let c0 := 0.2%float in
  let c1 := (c0 + 0.4)%float in
  let c2 := (c1 + 0.4)%float in
  let total := (c2 + 0.0)%float in
  let (u, r') := random r in
  let x := (u * total)%float in
  (if (x <? c1)%float then (if (x <? c0)%float then 0 else 1) else 2, r').
End Random.

(** ** pygame.Vector2 *)

Module Vector2.
Record t := mk { x : float; y : float }.

Definition of_ints (p : Z * Z) : t :=
  mk (Py.float_of_int (fst p)) (Py.float_of_int (snd p)).

Definition add (a b : t) : t := mk (x a + x b)%float (y a + y b)%float.
Definition sub (a b : t) : t := mk (x a - x b)%float (y a - y b)%float.
Definition scale (a : t) (k : float) : t := mk (x a * k)%float (y a * k)%float.
Definition length_squared (a : t) : float := (x a * x a + y a * y a)%float.

(** [normalize()] divides by the length (and raises on a zero length, which
    its one caller excludes). *)
Definition normalize (a : t) : t :=
  let l := sqrt (length_squared a) in mk (x a / l)%float (y a / l)%float.
End Vector2.

(** ** pygame.Rect: integer coordinates *)

Module Rect.
Record t := mk { x : Z; y : Z; w : Z; h : Z }.

Definition left (r : t) : Z := x r.
Definition top (r : t) : Z := y r.
Definition right (r : t) : Z := x r + w r.
Definition bottom (r : t) : Z := y r + h r.
Definition centerx (r : t) : Z := x r + Z.shiftr (w r) 1.
Definition centery (r : t) : Z := y r + Z.shiftr (h r) 1.
Definition center (r : t) : Z * Z := (centerx r, centery r).
Definition midtop (r : t) : Z * Z := (centerx r, y r).

(** [r.center = (cx, cy)] moves the rectangle and keeps its size. *)
Definition set_center_int (r : t) (c : Z * Z) : t :=
  mk (fst c - Z.shiftr (w r) 1) (snd c - Z.shiftr (h r) 1) (w r) (h r).

(** The range check of the setters on a float [d]: pygame raises
    [TypeError] when [d > INT_MAX || d < INT_MIN]. *)
Definition raises (d : float) : bool :=
  Py.gt d (Py.float_of_int C.INT_MAX) || Py.gt (Py.float_of_int C.INT_MIN) d.

(** [r.center = v] for a [Vector2] [v], when it does not raise: each float
    is rounded with [pg_round].  (A NaN passes the range check and its cast is
    undefined in C; [pg_round] gives 0 there.) *)
Definition set_center (r : t) (v : Vector2.t) : t :=
  set_center_int r (C.pg_round (Vector2.x v), C.pg_round (Vector2.y v)).

(** [Surface(size).get_rect()] *)
Definition of_size (s : Z * Z) : t := mk 0 0 (fst s) (snd s).

(** [a.colliderect(b)]: the two rectangles overlap (an empty rectangle
    overlaps nothing). *)
Definition colliderect (a b : t) : bool :=
  if (w a =? 0) || (h a =? 0) || (w b =? 0) || (h b =? 0) then false
  else
    (Z.min (x a) (x a + w a) <? Z.max (x b) (x b + w b)) &&
    (Z.min (y a) (y a + h a) <? Z.max (y b) (y b + h b)) &&
    (Z.min (x b) (x b + w b) <? Z.max (x a) (x a + w a)) &&
    (Z.min (y b) (y b + h b) <? Z.max (y a) (y a + h a)).
End Rect.

(** ** Input: the keys held and the events of a frame *)

Inductive Key :=
| K_LEFT | K_RIGHT | K_UP | K_DOWN
| K_a | K_d | K_w | K_s
| K_SPACE | K_z | K_p | K_ESCAPE | K_other.

Inductive Event := QUIT | KEYDOWN (key : Key) | OtherEvent.

Definition Keys := Key -> bool.

(** ** Sprites

    A sprite is a record; [update] returns the updated sprite together with
    a flag that tells whether the sprite called [kill()] on itself, which
    removes it from every group that holds it. *)

Module Player.
Record t := mk {
  rect : Rect.t;
  pos : Vector2.t;
  vel : Vector2.t;
  fire_timer : float;
  score : Z;
  lives : Z
}.

(** [Player(pos)] *)
Definition init (p : Z * Z) : t :=
  mk (Rect.set_center_int (Rect.of_size PLAYER_SIZE) p)
     (Vector2.of_ints p)
     (Vector2.mk 0 0)
     0.0
     0
     3.

(** The movement input of [update]: each held direction adds or subtracts 1. *)
Definition move_input (keys : Keys) : Vector2.t :=
  let mx := 0%float in
  let mx := if keys K_LEFT || keys K_a then (mx - 1)%float else mx in
  let mx := if keys K_RIGHT || keys K_d then (mx + 1)%float else mx in
  let my := 0%float in
  let my := if keys K_UP || keys K_w then (my - 1)%float else my in
  let my := if keys K_DOWN || keys K_s then (my + 1)%float else my in
  Vector2.mk mx my.

Definition update (dt : float) (keys : Keys) (self : t) : t :=
  let move := move_input keys in
  let move :=
    if Py.gt (Vector2.length_squared move) 0 then Vector2.normalize move
    else move in
  let vel := Vector2.scale move (Py.float_of_int PLAYER_SPEED) in
  let pos := Vector2.add (pos self) (Vector2.scale vel dt) in
  (* keep on screen *)
  let px := clamp (Vector2.x pos)
              (Py.int_truediv (Rect.w (rect self)) 2)
              (Py.float_of_int WIDTH - Py.int_truediv (Rect.w (rect self)) 2)%float in
  let py := clamp (Vector2.y pos)
              (Py.int_truediv (Rect.h (rect self)) 2)
              (Py.float_of_int HEIGHT - Py.int_truediv (Rect.h (rect self)) 2)%float in
  let pos := Vector2.mk px py in
  mk (Rect.set_center (rect self) pos)
     pos
     vel
     (Py.max 0.0 (fire_timer self - dt)%float)
     (score self)
     (lives self).

Definition can_shoot (self : t) : bool := Py.le (fire_timer self) 0.0.

Definition shoot (self : t) : t :=
  mk (rect self) (pos self) (vel self) PLAYER_FIRE_COOLDOWN (score self) (lives self).

Definition set_score (n : Z) (self : t) : t :=
  mk (rect self) (pos self) (vel self) (fire_timer self) n (lives self).

Definition set_lives (n : Z) (self : t) : t :=
  mk (rect self) (pos self) (vel self) (fire_timer self) (score self) n.
End Player.

Module Bullet.
Record t := mk {
  rect : Rect.t;
  pos : Vector2.t;
  vel : Vector2.t
}.

(** [Bullet(pos)] *)
Definition init (p : Vector2.t) : t :=
  mk (Rect.set_center (Rect.of_size BULLET_SIZE) p)
     p
     (Vector2.mk (Py.float_of_int 0) (Py.float_of_int (- BULLET_SPEED))).

Definition update (dt : float) (self : t) : t * bool :=
  let pos := Vector2.add (pos self) (Vector2.scale (vel self) dt) in
  let rect := Rect.set_center (rect self) pos in
  (mk rect pos (vel self), Rect.bottom rect <? -20).
End Bullet.

Module Enemy.
Record t := mk {
  rect : Rect.t;
  pos : Vector2.t;
  speed : float;
  phase : float;
  osc_amp : float
}.

Section WithRandom.
Context {R : Type} `{RandomSource R}.

(** [Enemy(pos, speed)] *)
Definition init (p : Vector2.t) (speed : float) (r : R) : t * R :=
  let (u, r) := random r in
  let phase := (u * math_pi * 2)%float in
  let (amp, r) := uniform 8 26 r in
  (mk (Rect.set_center (Rect.of_size ENEMY_SIZE) p) p speed phase amp, r).
End WithRandom.

Definition update `{Libm} (dt : float) (self : t) : t * bool :=
  (* Move down, with horizontal wobble *)
  let phase := (phase self + dt * 4.0)%float in
  let wobble := (sin phase * osc_amp self)%float in
  let pos := Vector2.add (pos self)
               (Vector2.mk (wobble * dt)%float (speed self * dt)%float) in
  let rect := Rect.set_center (rect self) pos in
  (mk rect pos (speed self) phase (osc_amp self), HEIGHT + 40 <? Rect.top rect).
End Enemy.

Module Particle.
Record t := mk {
  rect : Rect.t;
  pos : Vector2.t;
  vel : Vector2.t;
  lifetime : float;
  age : float;
  (** the last value handed to [image.set_alpha], if any *)
  alpha : option Z
}.

Section WithPlatform.
Context `{Libm} {R : Type} `{RandomSource R}.

(** [Particle(pos)], for the integer point [pos] that every caller passes. *)
Definition init (p : Z * Z) (r : R) : t * R :=
  let pos := Vector2.of_ints p in
  let (u, r) := random r in
  let angle := (u * math_tau)%float in
  let (u, r) := random r in
  let speed := (u * Py.float_of_int PARTICLE_SPEED)%float in
  let vel := Vector2.scale (Vector2.mk (cos angle) (sin angle)) speed in
  let (lifetime, r) := uniform (PARTICLE_LIFETIME * 0.6)%float PARTICLE_LIFETIME r in
  let (size, r) := randint 2 6 r in
  (mk (Rect.set_center (Rect.of_size (size, size)) pos) pos vel lifetime 0.0 None, r).
End WithPlatform.

Definition update (dt : float) (self : t) : t * bool :=
  let age := (age self + dt)%float in
  if Py.ge age (lifetime self) then
    (mk (rect self) (pos self) (vel self) (lifetime self) age (alpha self), true)
  else
    (* simple physics + fade *)
    let pos := Vector2.add (pos self) (Vector2.scale (vel self) dt) in
    let vel := Vector2.scale (vel self) 0.98 in
    let alpha := Py.trunc (255 * (1.0 - age / lifetime self))%float in
    (mk (Rect.set_center (rect self) pos) pos vel (lifetime self) age (Some alpha),
     false).
End Particle.

(** ** Starfield for parallax *)

Module Star.
Record t := mk {
  pos : Vector2.t;
  size : Z;
  layer : Z;
  base_x : float
}.

Definition init (x y : float) (size layer : Z) : t :=
  mk (Vector2.mk x y) size layer x.

Definition update {R : Type} `{RandomSource R}
    (dt speed_factor : float) (self : t) (r : R) : t * R :=
  (* drift downward slightly and loop *)
  let y := (Vector2.y (pos self)
            + Py.float_of_int (20 + layer self * 40) * dt * speed_factor)%float in
  if Py.gt y (Py.float_of_int (HEIGHT + 10)) then
    let (x, r) := uniform (Py.float_of_int 0) (Py.float_of_int WIDTH) r in
    (mk (Vector2.mk x (Py.float_of_int (-10))) (size self) (layer self) (base_x self), r)
  else
    (mk (Vector2.mk (Vector2.x (pos self)) y) (size self) (layer self) (base_x self), r).
End Star.

Definition create_starfield_step {R : Type} `{RandomSource R} (r : R) : Star.t * R :=
  let (x, r) := uniform (Py.float_of_int 0) (Py.float_of_int WIDTH) r in
  let (y, r) := uniform (Py.float_of_int 0) (Py.float_of_int HEIGHT) r in
  let (layer, r) := choices_layer r in
  let (size, r) := if 0 <? layer then randint 1 3 r else randint 2 4 r in
  (Star.init x y size layer, r).

Fixpoint create_starfield {R : Type} `{RandomSource R} (count : nat) (r : R)
  : list Star.t * R :=
  match count with
  | O => ([], r)
  | S n =>
      let (s, r) := create_starfield_step r in
      let (stars, r) := create_starfield n r in
      (s :: stars, r)
  end.

(** ** Sprite groups

    A [pygame.sprite.Group] is the list of its member sprites in the order
    they were added.  [Group.update] updates every member and drops those
    that killed themselves. *)

Definition group_update {A : Type} (update : A -> A * bool) (group : list A) : list A :=
  map fst (filter (fun sk => negb (snd sk)) (map update group)).

(** [pygame.sprite.spritecollide(sprite, group, True)]: the members of
    [group] whose rectangle overlaps [r] are killed; the result is the list of
    the killed members and the group that remains. *)
Definition spritecollide {A : Type} (rect_of : A -> Rect.t) (r : Rect.t)
    (group : list A) : list A * list A :=
  (filter (fun s => Rect.colliderect r (rect_of s)) group,
   filter (fun s => negb (Rect.colliderect r (rect_of s))) group).

(** [pygame.sprite.groupcollide(enemy_group, bullet_group, True, True)]:
    every enemy, in order, collides with the bullets still in the group; an
    enemy that meets at least one bullet is killed, with the bullets it met.
    The result is the dictionary of the killed enemies (in order, each with
    its bullets) and the two groups that remain. *)
Fixpoint groupcollide (enemies : list Enemy.t) (bullets : list Bullet.t)
  : list (Enemy.t * list Bullet.t) * list Enemy.t * list Bullet.t :=
  match enemies with
  | [] => ([], [], bullets)
  | e :: enemies' =>
      let (collision, bullets1) := spritecollide Bullet.rect (Enemy.rect e) bullets in
      let '(crashed, remaining, bullets2) := groupcollide enemies' bullets1 in
      match collision with
      | [] => (crashed, e :: remaining, bullets2)
      | _ :: _ => ((e, collision) :: crashed, remaining, bullets2)
      end
  end.

(** ** Game manager *)

Section Game.
Context `{Libm} {R : Type} `{RandomSource R}.

Definition spawn_enemy (group : list Enemy.t) (r : R) : list Enemy.t * R :=
  let (x, r) := uniform (Py.float_of_int 40) (Py.float_of_int (WIDTH - 40)) r in
  let (y, r) := uniform (Py.float_of_int (-110)) (Py.float_of_int (-30)) r in
  let (speed, r) :=
    uniform (Py.float_of_int ENEMY_SPEED_MIN) (Py.float_of_int ENEMY_SPEED_MAX) r in
  let (e, r) := Enemy.init (Vector2.mk x y) speed r in
  (group ++ [e], r).

Fixpoint spawn_particles (count : nat) (p : Z * Z) (group : list Particle.t) (r : R)
  : list Particle.t * R :=
  match count with
  | O => (group, r)
  | S n =>
      let (q, r) := Particle.init p r in
      spawn_particles n p (group ++ [q]) r
  end.

Definition spawn_explosion (p : Z * Z) (particle_group : list Particle.t) (r : R)
  : list Particle.t * R :=
  spawn_particles PARTICLE_COUNT p particle_group r.

(** The state of [main]: the player, the groups, and the loop's variables. *)
Record Game := mkGame {
  player : Player.t;
  bullet_group : list Bullet.t;
  enemy_group : list Enemy.t;
  particle_group : list Particle.t;
  stars : list Star.t;
  spawn_timer : float;
  running : bool;
  paused : bool;
  speed_factor : float;
  rng : R
}.

(** [main] up to its loop. *)
Definition main_init (r : R) : Game :=
  let (stars, r) := create_starfield 140 r in
  mkGame (Player.init (Z.div WIDTH 2, HEIGHT - 100)) [] [] [] stars
         0.0 true false 1.0 r.

(** The event loop of a frame. *)
Definition handle_event (rp : bool * bool) (ev : Event) : bool * bool :=
  let (running, paused) := rp in
  match ev with
  | QUIT => (false, paused)
  | KEYDOWN key =>
      let running := match key with K_ESCAPE => false | _ => running end in
      let paused := match key with K_p => negb paused | _ => paused end in
      (running, paused)
  | OtherEvent => (running, paused)
  end.

Definition handle_events (events : list Event) (g : Game) : Game :=
  let (running', paused') := fold_left handle_event events (running g, paused g) in
  mkGame (player g) (bullet_group g) (enemy_group g) (particle_group g) (stars g)
         (spawn_timer g) running' paused' (speed_factor g) (rng g).

(** update starfield speed factor from player horizontal input *)
Definition update_speed_factor (dt : float) (keys : Keys) (speed_factor : float) : float :=
  if keys K_LEFT || keys K_a then 0.75%float
  else if keys K_RIGHT || keys K_d then 1.25%float
  else (speed_factor + (1.0 - speed_factor) * Py.min 1.0 (dt * 3.0))%float.

(** The spawn interval, from the score. *)
Definition spawn_interval (score : Z) : float :=
  Py.max 0.35 (ENEMY_SPAWN_INTERVAL - Py.min (Py.float_of_int score / 50.0) 0.7)%float.

(** spawn enemies periodically: the new timer, enemy group and random source *)
Definition spawn_step (dt : float) (score : Z) (timer : float)
    (enemies : list Enemy.t) (r : R) : float * list Enemy.t * R :=
  let timer := (timer + dt)%float in
  if Py.ge timer (spawn_interval score) then
    let (enemies, r) := spawn_enemy enemies r in (0.0%float, enemies, r)
  else (timer, enemies, r).

(** shooting: two bullets for a little spread *)
Definition shooting (keys : Keys) (p : Player.t) (bullets : list Bullet.t)
  : Player.t * list Bullet.t :=
  if (keys K_SPACE || keys K_z) && Player.can_shoot p then
    let midtop := Vector2.of_ints (Rect.midtop (Player.rect p)) in
    let offset := Vector2.mk (Py.float_of_int 10) (Py.float_of_int 0) in
    let b1 := Bullet.init (Vector2.sub midtop offset) in
    let b2 := Bullet.init (Vector2.add midtop offset) in
    (Player.shoot p, bullets ++ [b1; b2])
  else (p, bullets).

Fixpoint update_stars (dt speed_factor : float) (stars : list Star.t) (r : R)
  : list Star.t * R :=
  match stars with
  | [] => ([], r)
  | s :: rest =>
      let (s, r) := Star.update dt speed_factor s r in
      let (rest, r) := update_stars dt speed_factor rest r in
      (s :: rest, r)
  end.

(** One explosion per sprite of [centers], in order. *)
Fixpoint spawn_explosions (centers : list (Z * Z)) (particles : list Particle.t) (r : R)
  : list Particle.t * R :=
  match centers with
  | [] => (particles, r)
  | c :: rest =>
      let (particles, r) := spawn_explosion c particles r in
      spawn_explosions rest particles r
  end.

(** The body of [if not paused:] up to the collisions: speed factor, spawn,
    player, shooting, the three group updates and the stars. *)
Definition advance (dt : float) (keys : Keys) (g : Game) : Game :=
  let speed_factor := update_speed_factor dt keys (speed_factor g) in
  let '(spawn_timer, enemies, r) :=
    spawn_step dt (Player.score (player g)) (spawn_timer g) (enemy_group g) (rng g) in
  (* player update *)
  let p := Player.update dt keys (player g) in
  let (p, bullets) := shooting keys p (bullet_group g) in
  (* update bullets, enemies, particles *)
  let bullets := group_update (Bullet.update dt) bullets in
  let enemies := group_update (Enemy.update dt) enemies in
  let particles := group_update (Particle.update dt) (particle_group g) in
  (* update stars *)
  let (stars, r) := update_stars dt speed_factor (stars g) r in
  mkGame p bullets enemies particles stars spawn_timer (running g) (paused g)
         speed_factor r.

(** [for enemy in hits: player.score += 10; spawn_explosion(...)] *)
Fixpoint award_hits (hits : list (Enemy.t * list Bullet.t)) (p : Player.t)
    (particles : list Particle.t) (r : R) : Player.t * list Particle.t * R :=
  match hits with
  | [] => (p, particles, r)
  | (enemy, _) :: rest =>
      let p := Player.set_score (Player.score p + 10) p in
      (* explosion particles *)
      let (particles, r) :=
        spawn_explosion (Rect.center (Enemy.rect enemy)) particles r in
      award_hits rest p particles r
  end.

(** collisions: bullets -> enemies *)
Definition collide_bullets (g : Game) : Game :=
  let '(hits, enemies, bullets) := groupcollide (enemy_group g) (bullet_group g) in
  let '(p, particles, r) := award_hits hits (player g) (particle_group g) (rng g) in
  mkGame p bullets enemies particles (stars g) (spawn_timer g) (running g) (paused g)
         (speed_factor g) r.

(** collisions: enemies -> player *)
Definition collide_player (g : Game) : Game :=
  let (crashed, enemies) :=
    spritecollide Enemy.rect (Player.rect (player g)) (enemy_group g) in
  match crashed with
  | [] =>
      mkGame (player g) (bullet_group g) enemies (particle_group g) (stars g)
             (spawn_timer g) (running g) (paused g) (speed_factor g) (rng g)
  | _ :: _ =>
      let p := Player.set_lives (Player.lives (player g) - 1) (player g) in
      let center := Rect.center (Player.rect p) in
      let (particles, r) := spawn_explosion center (particle_group g) (rng g) in
      if Player.lives p <=? 0 then
        (* Game over: reset score and lives, clear enemies but keep running *)
        let (particles, r) := spawn_explosion center particles r in
        let p := Player.set_lives 3 p in
        let p := Player.set_score 0 p in
        let (particles, r) :=
          spawn_explosions (map (fun e => Rect.center (Enemy.rect e)) enemies)
                           particles r in
        mkGame p [] [] particles (stars g) (spawn_timer g) (running g) (paused g)
               (speed_factor g) r
      else
        mkGame p (bullet_group g) enemies particles (stars g) (spawn_timer g)
               (running g) (paused g) (speed_factor g) r
  end.

(** The simulation part of one pass through the loop body, for the elapsed
    time [dt], the events and the held keys of the frame. *)
Definition frame (dt : float) (events : list Event) (keys : Keys) (g : Game) : Game :=
  let g := handle_events events g in
  if paused g then g
  else collide_player (collide_bullets (advance dt keys g)).

(** What a frame reads from the outside: the milliseconds [clock.tick(FPS)]
    returns, the event queue and the keyboard state. *)
Record Input := mkInput {
  tick_ms : Z;
  events : list Event;
  keys : Keys
}.

Definition tick (i : Input) (g : Game) : Game :=
  frame (Py.float_of_int (tick_ms i) / 1000.0)%float (events i) (keys i) g.

(** [while running:] over the inputs of successive frames. *)
Fixpoint run (inputs : list Input) (g : Game) : Game :=
  match inputs with
  | [] => g
  | i :: rest => if running g then run rest (tick i g) else g
  end.
End Game.

Arguments Game R : clear implicits.

(** ** A concrete platform, for running the model on examples *)

Module Sample.
(** A libm stand-in: the examples below never depend on its values. *)
#[export] Instance libm : Libm := {| sin := fun _ => 0%float; cos := fun _ => 1%float |}.

(** A random source that counts its draws. *)
#[export] Instance counter : RandomSource nat := {|
  random := fun n => (0.5%float, S n);
  randint := fun a _ n => (a, S n)
|}.

Definition no_keys : Keys := fun _ => false.

Definition enemy_at (x y : float) : Enemy.t :=
  Enemy.mk (Rect.set_center (Rect.of_size ENEMY_SIZE) (Vector2.mk x y))
           (Vector2.mk x y) 60 0 8.

Definition bullet_at (x y : float) : Bullet.t := Bullet.init (Vector2.mk x y).

Definition game (p : Player.t) (bullets : list Bullet.t) (enemies : list Enemy.t)
    (is_paused : bool) : Game nat :=
  mkGame p bullets enemies [] [] 0.0 true is_paused 1.0 O.

Definition start : Player.t := Player.init (Z.div WIDTH 2, HEIGHT - 100).

Definition one_life : Player.t := Player.set_lives 1 start.

(** One life left, an enemy on the player, another far away, a bullet in flight. *)
Definition last_life : Game nat :=
  game one_life [bullet_at 100 300] [enemy_at 450 500; enemy_at 100 100] false.

(** Three lives and two enemies on the player at once. *)
Definition two_on_player : Game nat :=
  game start [] [enemy_at 450 500; enemy_at 455 505] false.

(** A particle of lifetime 0.5 s at a given age, with the alpha it was last given. *)
Definition particle_aged (age : float) (alpha : option Z) : Particle.t :=
  Particle.mk (Rect.mk (-1) (-1) 2 2) (Vector2.mk 0 0) (Vector2.mk 0 0) 0.5 age alpha.

(** The elapsed time of a frame of 16 ms, [16 / 1000.0]: a frame at 60 FPS. *)
Definition dt_16ms : float := (Py.float_of_int 16 / 1000.0)%float.


(** A game at score 0 whose spawn timer is 10 ms short of the interval. *)
Definition spawn_due : Game nat :=
  mkGame start [] [] [] [] 0.99 true false 1.0 O.
End Sample.

(** ** Predicates of the specification *)

(** The position is on screen: finite, and between half the player's size
    and the screen's size less that half, on both axes. *)
Definition on_screen (p : Player.t) : Prop :=
  let half_w := Py.int_truediv (Rect.w (Player.rect p)) 2 in
  let half_h := Py.int_truediv (Rect.h (Player.rect p)) 2 in
  let x := Vector2.x (Player.pos p) in
  let y := Vector2.y (Player.pos p) in
  is_finite x = true /\ is_finite y = true
  /\ Py.le half_w x = true /\ Py.le x (Py.float_of_int WIDTH - half_w)%float = true
  /\ Py.le half_h y = true /\ Py.le y (Py.float_of_int HEIGHT - half_h)%float = true.

Definition player_sized (p : Player.t) : Prop :=
  Rect.w (Player.rect p) = fst PLAYER_SIZE /\ Rect.h (Player.rect p) = snd PLAYER_SIZE.

(** An event that ends the loop: the window's close button or Escape. *)
Definition quits (ev : Event) : bool :=
  match ev with
  | QUIT | KEYDOWN K_ESCAPE => true
  | _ => false
  end.

(** An event that toggles the pause: a press of P. *)
Definition toggles (ev : Event) : bool :=
  match ev with
  | KEYDOWN K_p => true
  | _ => false
  end.

(** The shape every bullet and every enemy of a session has. *)
Definition bullet_shaped (b : Bullet.t) : Prop :=
  Bullet.vel b = Vector2.mk 0 (-700)
  /\ Rect.w (Bullet.rect b) = fst BULLET_SIZE
  /\ Rect.h (Bullet.rect b) = snd BULLET_SIZE.

Definition enemy_shaped (e : Enemy.t) : Prop :=
  Rect.w (Enemy.rect e) = fst ENEMY_SIZE /\ Rect.h (Enemy.rect e) = snd ENEMY_SIZE.

(** The four directions held, each by its arrow or its letter. *)
Definition held_left (keys : Keys) : bool := keys K_LEFT || keys K_a.
Definition held_right (keys : Keys) : bool := keys K_RIGHT || keys K_d.
Definition held_up (keys : Keys) : bool := keys K_UP || keys K_w.
Definition held_down (keys : Keys) : bool := keys K_DOWN || keys K_s.

(** A coordinate that a [Rect] stores: a number, not a NaN, that passes
    pygame's range check.  The assignment of such a float rounds it and does
    not raise. *)
Definition storable (d : float) : Prop := is_nan d = false /\ Rect.raises d = false.

(** A point that [rect.center] takes: both coordinates are storable. *)
Definition stored (v : Vector2.t) : Prop :=
  storable (Vector2.x v) /\ storable (Vector2.y v).

(** A box whose four edges are C [int]s: placing and reading it did not
    overflow C's arithmetic, which the model's integers do not have. *)
Definition in_int_range (r : Rect.t) : Prop :=
  C.INT_MIN <= Rect.left r /\ Rect.right r <= C.INT_MAX
  /\ C.INT_MIN <= Rect.top r /\ Rect.bottom r <= C.INT_MAX.

(** A rectangle that lies within the screen. *)
Definition rect_on_screen (r : Rect.t) : Prop :=
  0 <= Rect.left r /\ Rect.right r <= WIDTH /\ 0 <= Rect.top r /\ Rect.bottom r <= HEIGHT.

(** A bullet as a frame leaves it: shaped, not yet past the top margin, its
    box centred on its position rounded to the nearest integers (a position
    that [Rect] stores). *)
Definition bullet_in_play (b : Bullet.t) : Prop :=
  bullet_shaped b
  /\ -20 <= Rect.bottom (Bullet.rect b)
  /\ (stored (Bullet.pos b) ->
      Rect.center (Bullet.rect b)
      = (C.pg_round (Vector2.x (Bullet.pos b)), C.pg_round (Vector2.y (Bullet.pos b)))).

(** An enemy as a frame leaves it: shaped, not yet past the bottom margin,
    its box centred on its position rounded to the nearest integers (a
    position that [Rect] stores). *)
Definition enemy_in_play (e : Enemy.t) : Prop :=
  enemy_shaped e
  /\ Rect.top (Enemy.rect e) <= HEIGHT + 40
  /\ (stored (Enemy.pos e) ->
      Rect.center (Enemy.rect e)
      = (C.pg_round (Vector2.x (Enemy.pos e)), C.pg_round (Vector2.y (Enemy.pos e)))).

(** A particle as an explosion makes it, and one that an update has kept. *)
Definition fresh_particle (q : Particle.t) : Prop :=
  Particle.age q = 0%float /\ Particle.alpha q = None.

Definition fading_particle (q : Particle.t) : Prop :=
  Py.ge (Particle.age q) (Particle.lifetime q) = false
  /\ Particle.alpha q
     = Some (Py.trunc (255 * (1.0 - Particle.age q / Particle.lifetime q))%float).

(** * Properties *)

(** ** Facts on binary64 arithmetic

    The primitive operations are specified by [SpecFloat]'s functions on
    mantissa and exponent; the lemmas below follow a rounding through them as
    far as the program's comparisons need. *)

Module FloatFacts.
Lemma digits2_pos_bounds (p : positive) :
  2 ^ (Zpos (digits2_pos p) - 1) <= Zpos p < 2 ^ Zpos (digits2_pos p).
Proof.
  induction p as [p IH | p IH |]; cbn [digits2_pos].
  - rewrite Pos2Z.inj_succ.
    replace (Z.succ (Zpos (digits2_pos p)) - 1) with ((Zpos (digits2_pos p) - 1) + 1) by lia.
    rewrite Z.pow_succ_r by lia.
    rewrite Z.pow_add_r by lia. lia.
  - rewrite Pos2Z.inj_succ.
    replace (Z.succ (Zpos (digits2_pos p)) - 1) with ((Zpos (digits2_pos p) - 1) + 1) by lia.
    rewrite Z.pow_succ_r by lia.
    rewrite Z.pow_add_r by lia. lia.
  - simpl. lia.
Qed.

Lemma shr_1_m (mrs : shr_record) :
  0 <= shr_m mrs -> shr_m (shr_1 mrs) = Z.div2 (shr_m mrs).
Proof.
  destruct mrs as [m r s]; simpl. destruct m as [|p|p]; try lia; intros _.
  - reflexivity.
  - destruct p; reflexivity.
Qed.

Lemma iter_shr_1_m (p : positive) : forall mrs,
  0 <= shr_m mrs -> shr_m (iter_pos shr_1 p mrs) = Z.shiftr (shr_m mrs) (Zpos p).
Proof.
  induction p as [p IH | p IH |]; intros mrs Hm; cbn [iter_pos].
  - assert (H1 : 0 <= shr_m (shr_1 mrs)).
    { rewrite shr_1_m by assumption. rewrite Z.div2_div. apply Z.div_pos; lia. }
    assert (H2 : 0 <= shr_m (iter_pos shr_1 p (shr_1 mrs))).
    { rewrite IH by assumption. apply Z.shiftr_nonneg. assumption. }
    rewrite IH by assumption. rewrite IH by assumption.
    rewrite shr_1_m by assumption.
    rewrite Z.div2_spec. rewrite !Z.shiftr_shiftr by lia. f_equal. lia.
  - assert (H2 : 0 <= shr_m (iter_pos shr_1 p mrs)).
    { rewrite IH by assumption. apply Z.shiftr_nonneg. assumption. }
    rewrite IH by assumption. rewrite IH by assumption.
    rewrite !Z.shiftr_shiftr by lia. f_equal. lia.
  - rewrite shr_1_m by assumption. rewrite Z.div2_spec. reflexivity.
Qed.

Lemma Zdigits2_unique (x d : Z) :
  0 < x -> 2 ^ (d - 1) <= x < 2 ^ d -> Zdigits2 x = d.
Proof.
  intros Hx [Hlo Hhi]. destruct x as [|p|p]; try lia. cbn [Zdigits2].
  pose proof (digits2_pos_bounds p) as [Blo Bhi].
  assert (Hd : 0 < d).
  { destruct (Z_lt_le_dec 0 d) as [|Hle]; [assumption|].
    destruct (Z.eq_dec d 0) as [->|]; [simpl in Hhi; lia|].
    rewrite Z.pow_neg_r in Hhi by lia. lia. }
  assert (Zpos (digits2_pos p) - 1 < d).
  { apply (Z.pow_lt_mono_r_iff 2); lia. }
  assert (d - 1 < Zpos (digits2_pos p)).
  { apply (Z.pow_lt_mono_r_iff 2); lia. }
  lia.
Qed.

Lemma Zdigits2_bounds (x : Z) :
  0 < x -> 2 ^ (Zdigits2 x - 1) <= x < 2 ^ Zdigits2 x.
Proof. destruct x; try lia. intros _. apply digits2_pos_bounds. Qed.

Lemma Zdigits2_pos (x : Z) : 0 < x -> 0 < Zdigits2 x.
Proof. destruct x; simpl; lia. Qed.

Lemma shiftr_digits (x k : Z) :
  0 < x -> 0 <= k < Zdigits2 x ->
  0 < Z.shiftr x k /\ Zdigits2 (Z.shiftr x k) = Zdigits2 x - k.
Proof.
  intros Hx Hk. pose proof (Zdigits2_bounds x Hx) as [Blo Bhi].
  rewrite Z.shiftr_div_pow2 by lia.
  assert (Hp : 0 < 2 ^ k) by (apply Z.pow_pos_nonneg; lia).
  assert (Hlo : 2 ^ (Zdigits2 x - k - 1) <= x / 2 ^ k).
  { apply Z.div_le_lower_bound; [assumption|].
    rewrite <- Z.pow_add_r by lia.
    replace (k + (Zdigits2 x - k - 1)) with (Zdigits2 x - 1) by lia. assumption. }
  assert (Hhi : x / 2 ^ k < 2 ^ (Zdigits2 x - k)).
  { apply Z.div_lt_upper_bound; [assumption|].
    rewrite <- Z.pow_add_r by lia.
    replace (k + (Zdigits2 x - k)) with (Zdigits2 x) by lia. assumption. }
  assert (Hq : 0 < x / 2 ^ k).
  { assert (0 < 2 ^ (Zdigits2 x - k - 1)) by (apply Z.pow_pos_nonneg; lia). lia. }
  split; [assumption|]. apply Zdigits2_unique; [assumption|].
  split; assumption.
Qed.

Lemma fexp64_eq z : fexp prec emax z = Z.max (z - 53) (-1074).
Proof. reflexivity. Qed.

Lemma shr_record_of_loc_m m l : shr_m (shr_record_of_loc m l) = m.
Proof. destruct l as [|[]]; reflexivity. Qed.

(** One [shr_fexp] step on a positive mantissa at an exponent not below
    [emin]: the mantissa stays positive, the exponent becomes the canonical
    one when that is larger, and digits plus exponent is kept. *)
Lemma shr_fexp_pos (m e : Z) (l : location) :
  0 < m -> -1074 <= e ->
  exists mrs, shr_fexp prec emax m e l = (mrs, Z.max e (fexp prec emax (Zdigits2 m + e)))
    /\ 0 < shr_m mrs
    /\ Zdigits2 (shr_m mrs) + Z.max e (fexp prec emax (Zdigits2 m + e))
       = Zdigits2 m + e
    /\ shr_m mrs <= m.
Proof.
  intros Hm He. unfold shr_fexp, shr.
  pose proof (Zdigits2_pos m Hm) as Hd.
  rewrite fexp64_eq.
  destruct (Z.max (Zdigits2 m + e - 53) (-1074) - e) as [|p|p] eqn:En.
  - exists (shr_record_of_loc m l). rewrite shr_record_of_loc_m.
    repeat split; try lia. f_equal. lia.
  - exists (iter_pos shr_1 p (shr_record_of_loc m l)).
    rewrite iter_shr_1_m by (rewrite shr_record_of_loc_m; lia).
    rewrite shr_record_of_loc_m.
    destruct (shiftr_digits m (Zpos p) Hm) as [Hq Hdq]; [lia|].
    repeat split; try lia.
    + f_equal. lia.
    + rewrite Z.shiftr_div_pow2 by lia.
      apply Z.div_le_upper_bound; [apply Z.pow_pos_nonneg; lia|].
      assert (1 <= 2 ^ Zpos p) by (apply (Z.pow_le_mono_r 2 0); lia). nia.
  - exists (shr_record_of_loc m l). rewrite shr_record_of_loc_m.
    repeat split; try lia. f_equal. lia.
Qed.

Lemma Zdigits2_mono (x y : Z) : 0 < x -> x <= y -> Zdigits2 x <= Zdigits2 y.
Proof.
  intros Hx Hxy.
  pose proof (Zdigits2_bounds x Hx) as [Xlo _].
  pose proof (Zdigits2_bounds y ltac:(lia)) as [_ Yhi].
  pose proof (Zdigits2_pos x Hx). pose proof (Zdigits2_pos y ltac:(lia)).
  assert (Zdigits2 x - 1 < Zdigits2 y) by (apply (Z.pow_lt_mono_r_iff 2); lia).
  lia.
Qed.

Lemma round_nearest_even_bounds (m : Z) (l : location) :
  m <= round_nearest_even m l <= m + 1.
Proof.
  destruct l as [|[]]; simpl; try lia. destruct (Z.even m); lia.
Qed.

(** Rounding a positive mantissa at an exponent not below [emin]: the result
    is a finite float of the same sign whose exponent is at least the
    canonical one, or it overflows to the infinity of that sign.  When the
    input is not above its canonical exponent the result is a valid float. *)
Lemma binary_round_aux_pos (sx : bool) (m e : Z) (l : location) :
  0 < m -> -1074 <= e ->
  let r := binary_round_aux prec emax sx m e l in
  ((exists m' e', r = S754_finite sx m' e' /\ e <= e'
                  /\ fexp prec emax (Zdigits2 m + e) <= e')
   \/ r = S754_infinity sx)
  /\ (e <= fexp prec emax (Zdigits2 m + e) -> valid_binary r = true).
Proof.
  intros Hm He r. subst r. unfold binary_round_aux.
  destruct (shr_fexp_pos m e l Hm He) as (mrs1 & E1 & P1 & D1 & _).
  rewrite E1.
  set (e1 := Z.max e (fexp prec emax (Zdigits2 m + e))) in *.
  set (m1 := round_nearest_even (shr_m mrs1) (loc_of_shr_record mrs1)).
  pose proof (round_nearest_even_bounds (shr_m mrs1) (loc_of_shr_record mrs1)) as Hr.
  fold m1 in Hr.
  assert (Hm1 : 0 < m1) by lia.
  assert (He1 : -1074 <= e1) by (unfold e1; lia).
  destruct (shr_fexp_pos m1 e1 loc_Exact Hm1 He1) as (mrs2 & E2 & P2 & D2 & _).
  rewrite E2.
  set (e2 := Z.max e1 (fexp prec emax (Zdigits2 m1 + e1))) in *.
  destruct (shr_m mrs2) as [|p|p] eqn:Em2; try lia.
  destruct (Z.leb_spec e2 (emax - prec)) as [Hle|Hgt].
  - split.
    + left. exists p, e2. repeat split; unfold e2, e1; lia.
    + intros Hcan. cbn [valid_binary]. unfold bounded, canonical_mantissa.
      apply andb_true_intro. split; [|apply Z.leb_le; assumption].
      apply Z.eqb_eq. cbn [Zdigits2] in D2.
      rewrite D2.
      pose proof (Zdigits2_mono (shr_m mrs1) m1 P1 ltac:(lia)) as Hmono.
      rewrite fexp64_eq in *. unfold e2. rewrite fexp64_eq.
      unfold e1 in *. rewrite fexp64_eq in *. lia.
  - split; [right; reflexivity | intros _; reflexivity].
Qed.

Lemma pos_iter_xO (d m : positive) : Zpos (Pos.iter xO m d) = Zpos m * 2 ^ Zpos d.
Proof.
  induction d as [|d IH] using Pos.peano_ind.
  - simpl. lia.
  - rewrite Pos.iter_succ, Pos2Z.inj_xO, IH, Pos2Z.inj_succ, Z.pow_succ_r by lia. lia.
Qed.

Lemma Zdigits2_shiftl (m d : Z) :
  0 < m -> 0 <= d -> Zdigits2 (m * 2 ^ d) = Zdigits2 m + d.
Proof.
  intros Hm Hd. pose proof (Zdigits2_bounds m Hm) as [Blo Bhi].
  pose proof (Zdigits2_pos m Hm).
  assert (0 < 2 ^ d) by (apply Z.pow_pos_nonneg; lia).
  apply Zdigits2_unique; [nia|].
  replace (Zdigits2 m + d - 1) with ((Zdigits2 m - 1) + d) by lia.
  rewrite !Z.pow_add_r by lia. split; nia.
Qed.

(** [float(n)] for a positive [n]: the conversion is a valid float, finite
    with an exponent of at least [digits n - 53], or [+infinity]. *)
Lemma binary_normalize_pos (n : Z) :
  0 < n ->
  let r := binary_normalize prec emax n 0 false in
  valid_binary r = true /\
  ((exists m e, r = S754_finite false m e /\ Zdigits2 n - 53 <= e)
   \/ r = S754_infinity false).
Proof.
  intros Hn r. subst r. destruct n as [|p|p]; try lia.
  cbn [binary_normalize]. unfold binary_round, shl_align.
  rewrite Z.add_0_r, Z.sub_0_r.
  pose proof (Zdigits2_pos (Zpos p) Hn) as Hd. cbn [Zdigits2] in Hd.
  destruct (fexp prec emax (Zpos (digits2_pos p))) as [|q|q] eqn:Ef;
    rewrite fexp64_eq in Ef.
  - destruct (binary_round_aux_pos false (Zpos p) 0 loc_Exact Hn ltac:(lia)) as [Hr Hv].
    split.
    + apply Hv. cbn [Zdigits2]. rewrite fexp64_eq. lia.
    + destruct Hr as [(m & e & -> & He & He')| -> ]; [left|right; reflexivity].
      exists m, e. split; [reflexivity|]. cbn [Zdigits2] in *. rewrite fexp64_eq in He'. lia.
  - destruct (binary_round_aux_pos false (Zpos p) 0 loc_Exact Hn ltac:(lia)) as [Hr Hv].
    split.
    + apply Hv. cbn [Zdigits2]. rewrite fexp64_eq. lia.
    + destruct Hr as [(m & e & -> & He & He')| -> ]; [left|right; reflexivity].
      exists m, e. split; [reflexivity|]. cbn [Zdigits2] in *. rewrite fexp64_eq in He'. lia.
  - assert (Hq : -1074 <= Zneg q) by lia.
    assert (Hs : 0 < Zpos (Pos.iter xO p q)) by lia.
    assert (Hdig : Zdigits2 (Zpos (Pos.iter xO p q)) = Zpos (digits2_pos p) + Zpos q).
    { rewrite pos_iter_xO. rewrite Zdigits2_shiftl by lia. reflexivity. }
    destruct (binary_round_aux_pos false (Zpos (Pos.iter xO p q)) (Zneg q) loc_Exact Hs Hq)
      as [Hr Hv].
    split.
    + apply Hv. rewrite Hdig, fexp64_eq. lia.
    + destruct Hr as [(m & e & -> & He & He')| -> ]; [left|right; reflexivity].
      exists m, e. split; [reflexivity|]. rewrite Hdig, fexp64_eq in He'.
      cbn [Zdigits2]. lia.
Qed.

Lemma Prim2SF_float_of_int (n : Z) :
  0 < n ->
  (exists m e, Prim2SF (Py.float_of_int n) = S754_finite false m e /\ Zdigits2 n - 53 <= e)
  \/ Prim2SF (Py.float_of_int n) = S754_infinity false.
Proof.
  intros Hn. destruct (binary_normalize_pos n Hn) as [Hv Hr].
  unfold Py.float_of_int. rewrite Prim2SF_SF2Prim by assumption. exact Hr.
Qed.

Lemma Prim2SF_50 : Prim2SF 50.0 = S754_finite false 7036874417766400 (-47).
Proof. vm_compute. reflexivity. Qed.

Lemma Prim2SF_07 : Prim2SF 0.7 = S754_finite false 6305039478318694 (-53).
Proof. vm_compute. reflexivity. Qed.

(** A float of at least 64 divided by 50.0 is above 0.7: the quotient's
    exponent is above that of 0.7. *)
Lemma div50_above_07 (x : float) :
  ((exists m e, Prim2SF x = S754_finite false m e /\ -46 <= e)
   \/ Prim2SF x = S754_infinity false) ->
  (0.7 <? x / 50.0)%float = true.
Proof.
  intros Hx. rewrite ltb_spec, div_spec, Prim2SF_50, Prim2SF_07.
  destruct Hx as [(m & e & Ex & He)| Ex].
  - pose proof (Prim2SF_valid x) as Hv. rewrite Ex in *.
    cbn [valid_binary] in Hv. unfold bounded, canonical_mantissa in Hv.
    apply andb_prop in Hv. destruct Hv as [Hc _]. apply Z.eqb_eq in Hc.
    rewrite fexp64_eq in Hc.
    assert (Hd : Zpos (digits2_pos m) = 53) by lia.
    unfold SF64div, SFdiv, SFdiv_core_binary. cbn [Zdigits2 xorb].
    rewrite Hd.
    replace (Zpos (digits2_pos 7036874417766400)) with 53 by (vm_compute; reflexivity).
    rewrite fexp64_eq.
    replace (Z.min (Z.max (53 + e - (53 + -47) - 53) (-1074)) (e - -47)) with (e - 6) by lia.
    replace (e - -47 - (e - 6)) with 53 by lia.
    destruct (Z.div_eucl (Z.shiftl (Zpos m) 53) 7036874417766400) as [q r] eqn:Ediv.
    assert (Hq : 0 < q).
    { pose proof (Z_div_mod (Z.shiftl (Zpos m) 53) 7036874417766400 ltac:(lia)) as Hdm.
      rewrite Ediv in Hdm. rewrite Z.shiftl_mul_pow2 in Hdm by lia.
      change (2 ^ 53) with 9007199254740992 in Hdm. lia. }
    destruct (binary_round_aux_pos false q (e - 6)
                (new_location 7036874417766400 r) Hq ltac:(lia)) as [Hr _].
    destruct Hr as [(m' & e' & -> & He' & _)| -> ]; [|reflexivity].
    unfold SFltb, SFcompare.
    destruct (Z.compare_spec (-53) e'); [lia | reflexivity | lia].
  - rewrite Ex. reflexivity.
Qed.

Lemma float_of_int_div50 (n : Z) :
  64 <= n -> (0.7 <? Py.float_of_int n / 50.0)%float = true.
Proof.
  intros Hn. apply div50_above_07.
  destruct (Prim2SF_float_of_int n ltac:(lia)) as [(m & e & E & He)|E]; [left|right; exact E].
  exists m, e. split; [exact E|].
  assert (7 <= Zdigits2 n).
  { pose proof (Zdigits2_bounds n ltac:(lia)) as [_ Hhi].
    pose proof (Zdigits2_pos n ltac:(lia)).
    destruct (Z_lt_le_dec (Zdigits2 n) 7) as [Hlt|]; [|assumption].
    assert (2 ^ Zdigits2 n <= 2 ^ 6) by (apply Z.pow_le_mono_r; lia).
    change (2 ^ 6) with 64 in *. lia. }
  lia.
Qed.

Lemma ltb_leb (a b : float) : (a <? b)%float = true -> (a <=? b)%float = true.
Proof.
  rewrite ltb_spec, leb_spec. unfold SFltb, SFleb.
  destruct (SFcompare (Prim2SF a) (Prim2SF b)) as [[]|]; intros; congruence.
Qed.

(** A float strictly between two finite floats is finite. *)
Lemma between_finite (a v b : float) :
  (a <? v)%float = true -> (v <? b)%float = true -> is_finite v = true.
Proof.
  rewrite !ltb_spec. unfold is_finite, is_nan, is_infinity.
  rewrite !eqb_spec, abs_spec.
  replace (Prim2SF infinity) with (S754_infinity false) by (vm_compute; reflexivity).
  unfold SFltb, SFeqb.
  destruct (Prim2SF v) as [s|s| |s m e]; destruct (Prim2SF a) as [sa|sa| |sa ma ea];
    destruct (Prim2SF b) as [sb|sb| |sb mb eb]; simpl;
    try destruct s; try destruct sa; try destruct sb; simpl; try congruence;
    intros _ _; rewrite ?Z.compare_refl, ?Pos.compare_cont_refl; reflexivity.
Qed.
End FloatFacts.

(** ** The order of binary64 values *)

Module FloatOrder.
Lemma SFcompare_swap (x y : spec_float) :
  SFcompare y x = option_map CompOpp (SFcompare x y).
Proof.
  destruct x as [sx|sx| |sx mx ex], y as [sy|sy| |sy my ey]; cbn;
    try destruct sx; try destruct sy; cbn; try reflexivity.
  - rewrite (Z.compare_antisym ex ey). destruct (ex ?= ey); cbn; try reflexivity.
    rewrite ?CompOpp_involutive, ?Pos.compare_cont_antisym. reflexivity.
  - rewrite (Z.compare_antisym ex ey). destruct (ex ?= ey); cbn; try reflexivity.
    rewrite ?CompOpp_involutive, ?Pos.compare_cont_antisym. reflexivity.
Qed.

Lemma ltb_not_leb (a b : float) : (a <? b)%float = true -> (b <=? a)%float = false.
Proof.
  rewrite ltb_spec, leb_spec. unfold SFltb, SFleb. rewrite (SFcompare_swap (Prim2SF a)).
  destruct (SFcompare (Prim2SF a) (Prim2SF b)) as [[]|]; cbn; congruence.
Qed.

Lemma leb_not_ltb (a b : float) : (a <=? b)%float = true -> (b <? a)%float = false.
Proof.
  rewrite ltb_spec, leb_spec. unfold SFltb, SFleb. rewrite (SFcompare_swap (Prim2SF a)).
  destruct (SFcompare (Prim2SF a) (Prim2SF b)) as [[]|]; cbn; congruence.
Qed.

Lemma SFcompare_refl (x : spec_float) : x <> S754_nan -> SFcompare x x = Some Eq.
Proof.
  destruct x as [s|s| |s m e]; cbn; try congruence; intros _; destruct s; try reflexivity;
    rewrite Z.compare_refl, Pos.compare_cont_refl; reflexivity.
Qed.

Lemma is_nan_spec (v : float) : is_nan v = true -> Prim2SF v = S754_nan.
Proof.
  unfold is_nan. rewrite eqb_spec. unfold SFeqb. intros Hn.
  destruct (Prim2SF v) eqn:E; try reflexivity;
    rewrite SFcompare_refl in Hn by congruence; discriminate.
Qed.

Lemma nan_ltb (v b : float) :
  is_nan v = true -> (v <? b)%float = false /\ (b <? v)%float = false.
Proof.
  intros Hn. apply is_nan_spec in Hn. rewrite !ltb_spec, Hn. unfold SFltb.
  split; [reflexivity|]. destruct (Prim2SF b); reflexivity.
Qed.

Ltac compare_cases :=
  repeat match goal with
         | H : context [Z.compare ?a ?b] |- _ => destruct (Z.compare_spec a b); subst
         | |- context [Z.compare ?a ?b] => destruct (Z.compare_spec a b); subst
         | H : context [Pos.compare_cont Eq ?p ?q] |- _ =>
             change (Pos.compare_cont Eq p q) with (Pos.compare p q) in H;
             destruct (Pos.compare_spec p q); subst
         | |- context [Pos.compare_cont Eq ?p ?q] =>
             change (Pos.compare_cont Eq p q) with (Pos.compare p q);
             destruct (Pos.compare_spec p q); subst
         end.

Lemma SFleb_ltb_trans (x y z : spec_float) :
  SFleb x y = true -> SFltb y z = true -> SFltb x z = true.
Proof.
  unfold SFleb, SFltb.
  destruct x as [sx|sx| |sx mx ex], y as [sy|sy| |sy my ey], z as [sz|sz| |sz mz ez];
    cbn; try destruct sx; try destruct sy; try destruct sz; cbn;
    try congruence; intros; compare_cases; cbn in *; try congruence; try lia.
Qed.

(** A canonical mantissa above the subnormal range has 53 bits. *)
Lemma normal_mantissa (s : bool) (m : positive) (e : Z) :
  valid_binary (S754_finite s m e) = true -> -1074 < e ->
  2 ^ 52 <= Zpos m < 2 ^ 53.
Proof.
  cbn [valid_binary]. unfold bounded, canonical_mantissa. intros Hv He.
  apply andb_prop in Hv. destruct Hv as [Hc _]. apply Z.eqb_eq in Hc.
  change (fexp prec emax (Zpos (digits2_pos m) + e))
    with (Z.max (Zpos (digits2_pos m) + e - 53) (-1074)) in Hc.
  assert (Hd : Zpos (digits2_pos m) = 53) by lia.
  pose proof (FloatFacts.digits2_pos_bounds m) as Hb. rewrite Hd in Hb. exact Hb.
Qed.

Lemma SFleb_trans (x y z : spec_float) :
  SFleb x y = true -> SFleb y z = true -> SFleb x z = true.
Proof.
  unfold SFleb.
  destruct x as [sx|sx| |sx mx ex], y as [sy|sy| |sy my ey], z as [sz|sz| |sz mz ez];
    cbn; try destruct sx; try destruct sy; try destruct sz; cbn;
    try congruence; intros; compare_cases; cbn in *; try congruence; try lia.
Qed.

Lemma leb_trans (x y z : float) :
  (x <=? y)%float = true -> (y <=? z)%float = true -> (x <=? z)%float = true.
Proof. rewrite !leb_spec. apply SFleb_trans. Qed.

Lemma leb_ltb_trans (x y z : float) :
  (x <=? y)%float = true -> (y <? z)%float = true -> (x <? z)%float = true.
Proof. rewrite leb_spec, !ltb_spec. apply SFleb_ltb_trans. Qed.

(** A property that holds of 0, 1, ..., [n - 1] by evaluation holds below [n]. *)
Lemma below (n : nat) (P : Z -> bool) :
  forallb (fun k => P (Z.of_nat k)) (seq 0 n) = true ->
  forall z, 0 <= z < Z.of_nat n -> P z = true.
Proof.
  intros Hall z Hz. rewrite forallb_forall in Hall.
  specialize (Hall (Z.to_nat z)). rewrite Z2Nat.id in Hall by lia.
  apply Hall. apply in_seq. lia.
Qed.
End FloatOrder.

(** ** Rounding to the nearest integer

    [pg_round] adds or subtracts 0.5 in binary64 and takes the integer part.
    The lemmas follow the sum through its rounding: from 0.5 up to [2^52] in
    magnitude the integer part of the rounded sum is that of the exact one,
    so that [pg_round] changes value exactly at the half-integers. *)

Module Rounding.
Import FloatFacts FloatOrder.

Lemma divisible_split (a b m : Z) :
  0 <= a -> 0 <= b -> m mod 2 ^ (a + b) = 0 ->
  m mod 2 ^ a = 0 /\ Z.shiftr m a mod 2 ^ b = 0.
Proof.
  intros Ha Hb Hm.
  assert (Pa : 0 < 2 ^ a) by (apply Z.pow_pos_nonneg; lia).
  assert (Pb : 0 < 2 ^ b) by (apply Z.pow_pos_nonneg; lia).
  apply Z.mod_divide in Hm; [|rewrite Z.pow_add_r by lia; lia].
  destruct Hm as [c Hc]. rewrite Z.pow_add_r in Hc by lia.
  rewrite Z.shiftr_div_pow2 by lia. subst m.
  replace (c * (2 ^ a * 2 ^ b)) with (c * 2 ^ b * 2 ^ a) by ring.
  rewrite Z.mod_mul by lia. rewrite Z.div_mul by lia. rewrite Z.mod_mul by lia.
  split; reflexivity.
Qed.

Lemma shr_1_exact (mrs : shr_record) :
  0 <= shr_m mrs -> shr_r mrs = false -> shr_s mrs = false -> shr_m mrs mod 2 ^ 1 = 0 ->
  shr_r (shr_1 mrs) = false /\ shr_s (shr_1 mrs) = false.
Proof.
  destruct mrs as [m r s]. cbn [shr_m shr_r shr_s]. intros Hm -> -> Hd.
  change (2 ^ 1) with 2 in Hd.
  destruct m as [|p|p]; try lia; [split; reflexivity|].
  destruct p as [p|p|]; cbn; try (split; reflexivity).
  - rewrite Pos2Z.inj_xI in Hd. Z.div_mod_to_equations. lia.
  - cbv in Hd. discriminate.
Qed.

Lemma iter_shr_1_exact (p : positive) : forall mrs,
  0 <= shr_m mrs -> shr_r mrs = false -> shr_s mrs = false ->
  shr_m mrs mod 2 ^ Zpos p = 0 ->
  shr_r (iter_pos shr_1 p mrs) = false /\ shr_s (iter_pos shr_1 p mrs) = false.
Proof.
  induction p as [p IH | p IH |]; intros mrs Hm Hr Hs Hd; cbn [iter_pos].
  - replace (Zpos p~1) with (1 + (Zpos p + Zpos p)) in Hd by lia.
    destruct (divisible_split 1 (Zpos p + Zpos p) _ ltac:(lia) ltac:(lia) Hd) as [D1 D2].
    destruct (shr_1_exact mrs Hm Hr Hs D1) as [R1 S1].
    assert (M1 : shr_m (shr_1 mrs) = Z.shiftr (shr_m mrs) 1).
    { rewrite shr_1_m by assumption. rewrite Z.div2_spec. reflexivity. }
    assert (H1 : 0 <= shr_m (shr_1 mrs)).
    { rewrite M1. apply Z.shiftr_nonneg. assumption. }
    rewrite <- M1 in D2.
    destruct (divisible_split (Zpos p) (Zpos p) _ ltac:(lia) ltac:(lia) D2) as [D3 D4].
    destruct (IH _ H1 R1 S1 D3) as [R2 S2].
    assert (H2 : 0 <= shr_m (iter_pos shr_1 p (shr_1 mrs))).
    { rewrite iter_shr_1_m by assumption. apply Z.shiftr_nonneg. assumption. }
    apply IH; try assumption.
    rewrite iter_shr_1_m by assumption. exact D4.
  - replace (Zpos p~0) with (Zpos p + Zpos p) in Hd by lia.
    destruct (divisible_split (Zpos p) (Zpos p) _ ltac:(lia) ltac:(lia) Hd) as [D3 D4].
    destruct (IH _ Hm Hr Hs D3) as [R2 S2].
    assert (H2 : 0 <= shr_m (iter_pos shr_1 p mrs)).
    { rewrite iter_shr_1_m by assumption. apply Z.shiftr_nonneg. assumption. }
    apply IH; try assumption.
    rewrite iter_shr_1_m by assumption. exact D4.
  - apply shr_1_exact; assumption.
Qed.

(** One [shr_fexp] step, in full: the mantissa is shifted to the canonical
    exponent, and the shift of an exact multiple is exact. *)
Lemma shr_fexp_spec (m e : Z) (l : location) :
  0 < m -> -1074 <= e ->
  let e' := Z.max e (fexp prec emax (Zdigits2 m + e)) in
  exists mrs, shr_fexp prec emax m e l = (mrs, e')
    /\ shr_m mrs = Z.shiftr m (e' - e)
    /\ 0 < shr_m mrs
    /\ Zdigits2 (shr_m mrs) = Zdigits2 m - (e' - e)
    /\ (l = loc_Exact -> m mod 2 ^ (e' - e) = 0 -> loc_of_shr_record mrs = loc_Exact).
Proof.
  intros Hm He e'. subst e'. unfold shr_fexp, shr.
  pose proof (Zdigits2_pos m Hm) as Hd.
  rewrite fexp64_eq.
  destruct (Z.max (Zdigits2 m + e - 53) (-1074) - e) as [|p|p] eqn:En.
  - exists (shr_record_of_loc m l). rewrite shr_record_of_loc_m.
    replace (Z.max e (Z.max (Zdigits2 m + e - 53) (-1074)) - e) with 0 by lia.
    rewrite Z.shiftr_0_r. repeat split; try lia.
    + f_equal. lia.
    + intros -> _. reflexivity.
  - exists (iter_pos shr_1 p (shr_record_of_loc m l)).
    rewrite iter_shr_1_m by (rewrite shr_record_of_loc_m; lia).
    rewrite shr_record_of_loc_m.
    replace (Z.max e (Z.max (Zdigits2 m + e - 53) (-1074)) - e) with (Zpos p) by lia.
    destruct (shiftr_digits m (Zpos p) Hm) as [Hq Hdq]; [lia|].
    repeat split; try lia.
    + f_equal. lia.
    + intros -> Hdiv.
      destruct (iter_shr_1_exact p (shr_record_of_loc m loc_Exact)) as [R1 S1];
        try reflexivity; cbn [shr_record_of_loc shr_m]; try lia; try assumption.
      destruct (iter_pos shr_1 p _) as [m' r' s']. cbn in R1, S1. subst. reflexivity.
  - exists (shr_record_of_loc m l). rewrite shr_record_of_loc_m.
    replace (Z.max e (Z.max (Zdigits2 m + e - 53) (-1074)) - e) with 0 by lia.
    rewrite Z.shiftr_0_r. repeat split; try lia.
    + f_equal. lia.
    + intros -> _. reflexivity.
Qed.

(** Rounding a positive mantissa [m] at exponent [e] to nearest even: the
    shifted mantissa, or its successor; the shifted mantissa itself when the
    shift drops only zeros. *)
Lemma binary_round_aux_spec (sx : bool) (m e : Z) :
  0 < m -> -1074 <= e ->
  let e' := Z.max e (fexp prec emax (Zdigits2 m + e)) in
  let q := Z.shiftr m (e' - e) in
  exists m1, q <= m1 <= q + 1 /\ 0 < q
    /\ (m mod 2 ^ (e' - e) = 0 -> m1 = q)
    /\ (971 <= e'
        \/ exists m2 e2,
             binary_round_aux prec emax sx m e loc_Exact = S754_finite sx m2 e2
             /\ e' <= e2 /\ Zpos m2 * 2 ^ (e2 - e') = m1).
Proof.
  intros Hm He e' q. unfold binary_round_aux.
  destruct (shr_fexp_spec m e loc_Exact Hm He) as (mrs1 & E1 & M1 & P1 & D1 & X1).
  fold e' in E1, M1, D1, X1. rewrite E1.
  set (m1 := round_nearest_even (shr_m mrs1) (loc_of_shr_record mrs1)).
  exists m1.
  pose proof (round_nearest_even_bounds (shr_m mrs1) (loc_of_shr_record mrs1)) as Hr.
  fold m1 in Hr.
  assert (Dq : Zdigits2 q <= 53).
  { unfold q. rewrite <- M1, D1. unfold e'. rewrite fexp64_eq. lia. }
  rewrite M1 in Hr, P1. fold q in Hr, P1.
  split; [exact Hr|]. split; [exact P1|]. split.
  - intros Hdiv. unfold m1. rewrite X1 by (reflexivity || assumption). cbn. exact M1.
  - assert (Hm1 : 0 < m1) by lia. assert (He' : -1074 <= e') by (unfold e'; lia).
    destruct (shr_fexp_spec m1 e' loc_Exact Hm1 He') as (mrs2 & E2 & M2 & P2 & D2 & _).
    rewrite E2.
    set (e2 := Z.max e' (fexp prec emax (Zdigits2 m1 + e'))) in *.
    destruct (shr_m mrs2) as [|p|p] eqn:Em2; try lia.
    assert (Dm1 : Zdigits2 m1 <= 54).
    { pose proof (Zdigits2_bounds q P1) as [_ Bq].
      assert (2 ^ Zdigits2 q <= 2 ^ 53) by (apply Z.pow_le_mono_r; lia).
      pose proof (Zdigits2_mono m1 (2 ^ 53) Hm1 ltac:(lia)) as Hmono.
      change (Zdigits2 (2 ^ 53)) with 54 in Hmono. exact Hmono. }
    destruct (Z.leb_spec e2 (emax - prec)) as [Hfin|Hinf];
      [right | left; unfold e2 in Hinf; rewrite fexp64_eq in Hinf;
               change (emax - prec) with 971 in Hinf; lia].
    exists p, e2. split; [reflexivity|]. split; [unfold e2; lia|].
    rewrite M2.
    destruct (Z.eq_dec e2 e') as [->|Hne].
    + rewrite Z.sub_diag, Z.shiftr_0_r. change (2 ^ 0) with 1. lia.
    + assert (Hd54 : 54 <= Zdigits2 m1).
      { unfold e2 in Hne. rewrite fexp64_eq in Hne. lia. }
      pose proof (Zdigits2_bounds q P1) as [_ Bq].
      assert (2 ^ Zdigits2 q <= 2 ^ 53) by (apply Z.pow_le_mono_r; lia).
      pose proof (Zdigits2_bounds m1 Hm1) as [Bm1 _].
      assert (2 ^ 53 <= 2 ^ (Zdigits2 m1 - 1)) by (apply Z.pow_le_mono_r; lia).
      assert (Em1 : m1 = 2 ^ 53) by lia.
      assert (Ee2 : e2 = e' + 1).
      { unfold e2. rewrite fexp64_eq. rewrite Em1.
        change (Zdigits2 (2 ^ 53)) with 54. lia. }
      rewrite Ee2, Em1. replace (e' + 1 - e') with 1 by lia. reflexivity.
Qed.

(** The integer part of a rounded magnitude, from the rounded mantissa. *)
Lemma shiftl_rounded (m2 : positive) (m1 e' e2 : Z) :
  e' <= e2 -> Zpos m2 * 2 ^ (e2 - e') = m1 ->
  Z.shiftl (Zpos m2) e2 = Z.shiftl m1 e'.
Proof.
  intros He <-. rewrite <- Z.shiftl_mul_pow2 by lia.
  rewrite Z.shiftl_shiftl by lia. f_equal. lia.
Qed.

Lemma shl_align_fst (m : positive) (e ez : Z) :
  ez <= e -> Zpos (fst (shl_align m e ez)) = Zpos m * 2 ^ (e - ez).
Proof.
  intros Hle. unfold shl_align.
  destruct (ez - e) as [|d|d] eqn:Ed; cbn [fst]; try lia.
  - replace (e - ez) with 0 by lia. change (2 ^ 0) with 1. lia.
  - rewrite pos_iter_xO. f_equal. f_equal. lia.
Qed.

Lemma binary_round_aligned (s : bool) (p : positive) (ez : Z) :
  2 ^ 52 <= Zpos p ->
  binary_round prec emax s p ez = binary_round_aux prec emax s (Zpos p) ez loc_Exact.
Proof.
  intros Hp. unfold binary_round, shl_align.
  pose proof (Zdigits2_mono (2 ^ 52) (Zpos p) ltac:(reflexivity) Hp) as Hd.
  change (Zdigits2 (2 ^ 52)) with 53 in Hd. cbn [Zdigits2] in Hd.
  rewrite fexp64_eq.
  destruct (Z.max (Zpos (digits2_pos p) + ez - 53) (-1074) - ez) eqn:Ed; try reflexivity.
  lia.
Qed.

(** [x + 0.5] for a positive [x] and [x - 0.5] for a negative one: the
    rounding of the sum of the two magnitudes at the smaller exponent. *)
Lemma away_half (x : float) (s : bool) (m : positive) (e : Z) :
  Prim2SF x = S754_finite s m e ->
  Prim2SF (if s then x - 0.5 else x + 0.5)
  = binary_round_aux prec emax s
      (Zpos m * 2 ^ (e - Z.min e (-53)) + 2 ^ 52 * 2 ^ (-53 - Z.min e (-53)))
      (Z.min e (-53)) loc_Exact.
Proof.
  intros Ex. set (ez := Z.min e (-53)).
  pose proof (shl_align_fst m e ez ltac:(unfold ez; lia)) as Am.
  pose proof (shl_align_fst 4503599627370496 (-53) ez ltac:(unfold ez; lia)) as Ah.
  change (Zpos 4503599627370496) with (2 ^ 52) in Ah.
  assert (P1 : 0 < 2 ^ (e - ez)) by (apply Z.pow_pos_nonneg; unfold ez; lia).
  assert (P2 : 0 < 2 ^ (-53 - ez)) by (apply Z.pow_pos_nonneg; unfold ez; lia).
  assert (Hbig : 2 ^ 52 <= Zpos (fst (shl_align m e ez)
                                + fst (shl_align 4503599627370496 (-53) ez))).
  { rewrite Pos2Z.inj_add, Am, Ah. change (2 ^ 52) with 4503599627370496 in *. nia. }
  rewrite <- Am, <- Ah, <- Pos2Z.inj_add.
  rewrite <- (binary_round_aligned s _ ez Hbig).
  destruct s.
  - rewrite sub_spec, Ex.
    replace (Prim2SF 0.5) with (S754_finite false 4503599627370496 (-53))
      by (vm_compute; reflexivity).
    unfold SF64sub, SFsub. fold ez. cbn [cond_Zopp]. reflexivity.
  - rewrite add_spec, Ex.
    replace (Prim2SF 0.5) with (S754_finite false 4503599627370496 (-53))
      by (vm_compute; reflexivity).
    unfold SF64add, SFadd. fold ez. cbn [cond_Zopp]. reflexivity.
Qed.

(** The magnitude [|x| + 0.5] of a normal [x] with [0.5 <= |x| < 2^52],
    rounded: its integer part is that of the exact sum. *)
Lemma half_away_normal (s : bool) (m : positive) (e : Z) :
  2 ^ 52 <= Zpos m < 2 ^ 53 -> -53 <= e <= -1 ->
  exists m2 e2,
    binary_round_aux prec emax s
      (Zpos m * 2 ^ (e - Z.min e (-53)) + 2 ^ 52 * 2 ^ (-53 - Z.min e (-53)))
      (Z.min e (-53)) loc_Exact = S754_finite s m2 e2
    /\ Z.shiftl (Zpos m2) e2 = (Zpos m + 2 ^ (- e - 1)) / 2 ^ (- e).
Proof.
  intros Hm He. rewrite Z.min_r by lia.
  replace (-53 - -53) with 0 by lia. change (2 ^ 0) with 1. rewrite Z.mul_1_r.
  set (P := 2 ^ (- e - 1)). set (Q := 2 ^ (e - -53)).
  assert (HP : 1 <= P) by (unfold P; apply (Z.pow_le_mono_r 2 0); lia).
  assert (HQ : 1 <= Q) by (unfold Q; apply (Z.pow_le_mono_r 2 0); lia).
  assert (HPQ : P * Q = 2 ^ 52).
  { unfold P, Q. rewrite <- Z.pow_add_r by lia. f_equal. lia. }
  assert (HP2 : 2 ^ (- e) = 2 * P).
  { unfold P. replace (- e) with (Z.succ (- e - 1)) at 1 by lia.
    rewrite Z.pow_succ_r by lia. reflexivity. }
  assert (HPle : P <= 2 ^ 52) by nia.
  rewrite HP2.
  set (m' := Zpos m + P).
  assert (EM : Zpos m * Q + 2 ^ 52 = m' * Q) by (unfold m'; lia).
  rewrite EM.
  assert (HM : 0 < m' * Q) by (unfold m'; nia).
  assert (Bm' : 2 ^ 52 + P <= m' < 2 ^ 53 + P) by (unfold m'; lia).
  clearbody m'.
  pose proof (binary_round_aux_spec s (m' * Q) (-53) HM ltac:(lia)) as S.
  cbv zeta in S.
  destruct (Z_lt_le_dec m' (2 ^ 53)) as [Hlo|Hhi].
  - assert (Hdig : Zdigits2 (m' * Q) = e + 106).
    { apply Zdigits2_unique; [assumption|].
      replace (e + 106 - 1) with (52 + (e - -53)) by lia.
      replace (e + 106) with (53 + (e - -53)) by lia.
      rewrite !Z.pow_add_r by lia. fold Q. split; nia. }
    rewrite Hdig, fexp64_eq in S.
    replace (Z.max (-53) (Z.max (e + 106 + -53 - 53) (-1074))) with e in S by lia.
    fold Q in S. rewrite Z.mod_mul in S by lia.
    rewrite Z.shiftr_div_pow2 in S by lia. fold Q in S. rewrite Z.div_mul in S by lia.
    destruct S as (m1 & _ & _ & X & [Hinf | (m2 & e2 & E & Le & V)]); [lia|].
    exists m2, e2. split; [exact E|].
    rewrite (shiftl_rounded m2 m1 e e2 Le V), (X eq_refl).
    replace e with (- (- e)) at 1 by lia. rewrite Z.shiftl_opp_r.
    rewrite Z.shiftr_div_pow2 by lia. rewrite HP2. reflexivity.
  - assert (Hdig : Zdigits2 (m' * Q) = e + 107).
    { apply Zdigits2_unique; [assumption|].
      replace (e + 107 - 1) with (53 + (e - -53)) by lia.
      replace (e + 107) with (54 + (e - -53)) by lia.
      rewrite !Z.pow_add_r by lia. fold Q.
      change (2 ^ 54) with (2 * 2 ^ 53). change (2 ^ 53) with (2 * 2 ^ 52) in *.
      split; nia. }
    rewrite Hdig, fexp64_eq in S.
    replace (Z.max (-53) (Z.max (e + 107 + -53 - 53) (-1074))) with (e + 1) in S by lia.
    replace (e + 1 - -53) with (Z.succ (e - -53)) in S by lia.
    rewrite Z.pow_succ_r in S by lia. fold Q in S.
    rewrite Z.shiftr_div_pow2 in S by lia.
    rewrite Z.pow_succ_r in S by lia. fold Q in S.
    replace (m' * Q / (2 * Q)) with (m' / 2) in S
      by (rewrite Z.div_mul_cancel_r by lia; reflexivity).
    destruct S as (m1 & B & _ & X & [Hinf | (m2 & e2 & E & Le & V)]); [lia|].
    exists m2, e2. split; [exact E|].
    rewrite (shiftl_rounded m2 m1 (e + 1) e2 Le V).
    replace (e + 1) with (- (- e - 1)) by lia. rewrite Z.shiftl_opp_r.
    rewrite Z.shiftr_div_pow2 by lia. fold P.
    assert (HQ2 : 2 * P * Q = 2 ^ 53).
    { change (2 ^ 53) with (2 * 2 ^ 52). lia. }
    assert (Hm'hi : m' < 2 ^ 53 + P) by lia.
    assert (E2 : m' / (2 * P) = Q).
    { symmetry. apply (Z.div_unique m' (2 * P) Q (m' - 2 ^ 53)); lia. }
    rewrite E2. symmetry.
    apply (Z.div_unique m1 P Q (m1 - 2 ^ 52)); [|lia].
    left. change (2 ^ 53) with (2 * 2 ^ 52) in *.
    destruct (Z.eq_dec P 1) as [HP1|HP1].
    + assert (Em' : m' = 2 * 2 ^ 52) by lia. subst m'.
      replace (2 * 2 ^ 52 * Q) with (2 ^ 52 * (2 * Q)) in X by ring.
      rewrite Z.mod_mul in X by lia. specialize (X eq_refl).
      replace (2 * 2 ^ 52 / 2) with (2 ^ 52) in X
        by (rewrite Z.mul_comm, Z.div_mul by lia; reflexivity).
      lia.
    + assert (HPeven : P mod 2 = 0).
      { unfold P. replace (- e - 1) with (Z.succ (- e - 2)) by lia.
        assert (0 <= - e - 2).
        { destruct (Z_le_gt_dec 0 (- e - 2)); [assumption|].
          exfalso. apply HP1. unfold P. replace (- e - 1) with 0 by lia. reflexivity. }
        rewrite Z.pow_succ_r by assumption.
        rewrite Z.mul_comm. apply Z.mod_mul. lia. }
      Z.div_mod_to_equations. lia.
Qed.

(** The same for [|x| < 0.5]: the rounded sum is at most 1. *)
Lemma half_away_small (s : bool) (m : positive) (e : Z) :
  Zpos m < 2 ^ 53 -> -1074 <= e <= -54 ->
  exists m2 e2,
    binary_round_aux prec emax s
      (Zpos m * 2 ^ (e - Z.min e (-53)) + 2 ^ 52 * 2 ^ (-53 - Z.min e (-53)))
      (Z.min e (-53)) loc_Exact = S754_finite s m2 e2
    /\ 0 <= Z.shiftl (Zpos m2) e2 <= 1.
Proof.
  intros Hm He. rewrite Z.min_l by lia.
  rewrite Z.sub_diag. change (2 ^ 0) with 1. rewrite Z.mul_1_r.
  set (U := 2 ^ (-53 - e)).
  assert (HU : 2 <= U) by (unfold U; apply (Z.pow_le_mono_r 2 1); lia).
  set (M := Zpos m + 2 ^ 52 * U).
  assert (HM : 0 < M) by (unfold M; lia).
  assert (Hdig : Zdigits2 M = - e).
  { apply Zdigits2_unique; [assumption|].
    replace (2 ^ (- e)) with (2 ^ 53 * U)
      by (unfold U; rewrite <- Z.pow_add_r by lia; f_equal; lia).
    replace (2 ^ (- e - 1)) with (2 ^ 52 * U)
      by (unfold U; rewrite <- Z.pow_add_r by lia; f_equal; lia).
    unfold M.
    change (2 ^ 53) with (2 * 2 ^ 52) in *. split; nia. }
  pose proof (binary_round_aux_spec s M e HM ltac:(lia)) as S.
  cbv zeta in S. rewrite Hdig, fexp64_eq in S.
  replace (Z.max e (Z.max (- e + e - 53) (-1074))) with (-53) in S by lia.
  fold U in S. rewrite Z.shiftr_div_pow2 in S by lia. fold U in S.
  destruct S as (m1 & B & Pq & _ & [Hinf | (m2 & e2 & E & Le & V)]); [lia|].
  exists m2, e2. split; [exact E|].
  rewrite (shiftl_rounded m2 m1 (-53) e2 Le V).
  change (Z.shiftl m1 (-53)) with (Z.shiftr m1 53). rewrite Z.shiftr_div_pow2 by lia.
  assert (Hq : M / U < 2 ^ 53).
  { apply Z.div_lt_upper_bound; [lia|]. unfold M.
    change (2 ^ 53) with (2 * 2 ^ 52) in *. nia. }
  split.
  - apply Z.div_pos; lia.
  - apply Z.div_le_upper_bound; lia.
Qed.

(** [pg_round] of a finite [x] below [2^52] in magnitude: the sign of [x]
    on the integer part of [|x| + 0.5], which is exact from 0.5 on. *)
Lemma pg_round_finite (x : float) (s : bool) (m : positive) (e : Z) :
  Prim2SF x = S754_finite s m e -> e <= -1 ->
  exists r, C.pg_round x = cond_Zopp s r
    /\ (-53 <= e -> r = (Zpos m + 2 ^ (- e - 1)) / 2 ^ (- e))
    /\ (e <= -54 -> 0 <= r <= 1).
Proof.
  intros Ex He.
  pose proof (Prim2SF_valid x) as Hv. rewrite Ex in Hv.
  assert (Hlt : (x <? 0)%float = s).
  { rewrite ltb_spec, Ex. replace (Prim2SF 0) with (S754_zero false) by reflexivity.
    destruct s; reflexivity. }
  assert (Hemin : -1074 <= e).
  { cbn [valid_binary] in Hv. unfold bounded, canonical_mantissa in Hv.
    apply andb_prop in Hv. destruct Hv as [Hc _]. apply Z.eqb_eq in Hc.
    rewrite fexp64_eq in Hc. lia. }
  assert (Hm53 : Zpos m < 2 ^ 53).
  { cbn [valid_binary] in Hv. unfold bounded, canonical_mantissa in Hv.
    apply andb_prop in Hv. destruct Hv as [Hc _]. apply Z.eqb_eq in Hc.
    rewrite fexp64_eq in Hc.
    pose proof (digits2_pos_bounds m) as [_ Bhi].
    assert (2 ^ Zpos (digits2_pos m) <= 2 ^ 53) by (apply Z.pow_le_mono_r; lia).
    lia. }
  pose proof (away_half x s m e Ex) as Eh.
  assert (Hr : exists m2 e2,
             Prim2SF (if s then x - 0.5 else x + 0.5)%float = S754_finite s m2 e2
             /\ (-53 <= e -> Z.shiftl (Zpos m2) e2 = (Zpos m + 2 ^ (- e - 1)) / 2 ^ (- e))
             /\ (e <= -54 -> 0 <= Z.shiftl (Zpos m2) e2 <= 1)).
  { destruct (Z_le_gt_dec (-53) e) as [Hn|Hs].
    - pose proof (normal_mantissa s m e Hv ltac:(lia)) as Bm.
      destruct (half_away_normal s m e Bm ltac:(lia)) as (m2 & e2 & E & V).
      exists m2, e2. rewrite Eh. split; [exact E|]. split; [intros _; exact V|lia].
    - destruct (half_away_small s m e Hm53 ltac:(lia)) as (m2 & e2 & E & V).
      exists m2, e2. rewrite Eh. split; [exact E|]. split; [lia|intros _; exact V]. }
  destruct Hr as (m2 & e2 & E & Vn & Vs).
  exists (Z.shiftl (Zpos m2) e2). split; [|split; assumption].
  unfold C.pg_round. rewrite Hlt. destruct s.
  - unfold C.ceil. rewrite E. reflexivity.
  - unfold C.floor. rewrite E. reflexivity.
Qed.

Lemma pg_round_zero (x : float) (s : bool) : Prim2SF x = S754_zero s -> C.pg_round x = 0.
Proof.
  intros Ex. unfold C.pg_round.
  assert (Hlt : (x <? 0)%float = false).
  { rewrite ltb_spec, Ex. reflexivity. }
  rewrite Hlt. unfold C.floor. rewrite add_spec, Ex.
  replace (Prim2SF 0.5) with (S754_finite false 4503599627370496 (-53))
    by (vm_compute; reflexivity).
  reflexivity.
Qed.

(** A coordinate that a [Rect] stores is a zero or a finite float below
    [2^32] in magnitude. *)
Lemma storable_cases (d : float) :
  storable d ->
  (exists s, Prim2SF d = S754_zero s)
  \/ exists s m e, Prim2SF d = S754_finite s m e /\ e <= -21.
Proof.
  intros [Hn Hr]. unfold Rect.raises, Py.gt in Hr.
  apply orb_false_elim in Hr. destruct Hr as [Hhi Hlo].
  rewrite ltb_spec in Hhi, Hlo.
  replace (Prim2SF (Py.float_of_int C.INT_MAX))
    with (S754_finite false 9007199250546688 (-22)) in Hhi by (vm_compute; reflexivity).
  replace (Prim2SF (Py.float_of_int C.INT_MIN))
    with (S754_finite true 4503599627370496 (-21)) in Hlo by (vm_compute; reflexivity).
  unfold is_nan in Hn. rewrite eqb_spec in Hn.
  destruct (Prim2SF d) as [s|s| |s m e].
  - left. exists s. reflexivity.
  - destruct s; discriminate.
  - discriminate.
  - right. exists s, m, e. split; [reflexivity|].
    unfold SFltb, SFcompare in Hhi, Hlo. destruct s.
    + destruct (Z.compare_spec e (-21)); try discriminate; lia.
    + destruct (Z.compare_spec (-22) e); try discriminate; lia.
Qed.

(** The thresholds of [pg_round]: it reaches [n >= 2] exactly from
    [n - 0.5] on, and [- n] exactly down from [- (n - 0.5)].  The float [c] is
    the half-integer, given with its mantissa and exponent. *)
Lemma pg_round_threshold (d c : float) (n : Z) (sc : bool) (mc : positive) (ec : Z) :
  Prim2SF c = S754_finite sc mc ec ->
  -53 <= ec <= -1 -> 2 <= n ->
  Zpos mc = (2 * n - 1) * 2 ^ (- ec - 1) ->
  storable d ->
  if sc then C.pg_round d <= - n <-> (d <=? c)%float = true
  else n <= C.pg_round d <-> (c <=? d)%float = true.
Proof.
  intros Ec Hec Hn Emc Hd.
  pose proof (Prim2SF_valid c) as Vc. rewrite Ec in Vc.
  pose proof (normal_mantissa sc mc ec Vc ltac:(lia)) as Bc.
  set (Ac := 2 ^ (- ec - 1)) in *.
  assert (HAc : 1 <= Ac) by (unfold Ac; apply (Z.pow_le_mono_r 2 0); lia).
  rewrite !leb_spec, Ec.
  destruct (storable_cases d Hd) as [[s Ex]|(s & m & e & Ex & He)].
  - rewrite (pg_round_zero d s Ex), Ex. destruct sc; cbn; split; intros; try lia; discriminate.
  - destruct (pg_round_finite d s m e Ex ltac:(lia)) as (r & -> & Rn & Rs).
    pose proof (Prim2SF_valid d) as Vd. rewrite Ex in *.
    assert (Hr0 : 0 <= r).
    { destruct (Z_le_gt_dec (-53) e) as [Hge|Hlt]; [|lia].
      rewrite Rn by assumption. apply Z.div_pos; [|apply Z.pow_pos_nonneg; lia].
      assert (0 < 2 ^ (- e - 1)) by (apply Z.pow_pos_nonneg; lia). lia. }
    assert (Hmain : sc = s ->
              (n <= r <-> (ec < e \/ (ec = e /\ Zpos mc <= Zpos m)))).
    { intros _. destruct (Z_le_gt_dec (-53) e) as [Hge|Hlt]; [|split; intros; lia].
      pose proof (normal_mantissa s m e Vd ltac:(lia)) as Bm.
      specialize (Rn Hge). set (A := 2 ^ (- e - 1)) in *.
      assert (HA : 1 <= A) by (unfold A; apply (Z.pow_le_mono_r 2 0); lia).
      assert (HA2 : 2 ^ (- e) = 2 * A).
      { unfold A. replace (- e) with (Z.succ (- e - 1)) at 1 by lia.
        rewrite Z.pow_succ_r by lia. reflexivity. }
      rewrite HA2 in Rn.
      assert (Hdiv : n <= r <-> (2 * n - 1) * A <= Zpos m).
      { rewrite Rn. split; intros Hle.
        - pose proof (Z.mul_div_le (Zpos m + A) (2 * A) ltac:(lia)). nia.
        - apply Z.div_le_lower_bound; [lia|nia]. }
      rewrite Hdiv. change (2 ^ 53) with (2 * 2 ^ 52) in *.
      destruct (Z.compare_spec ec e) as [Heq|Hlt|Hgt].
      - subst e. fold Ac in A. subst A. lia.
      - assert (2 * A <= Ac).
        { rewrite <- HA2. unfold Ac. apply Z.pow_le_mono_r; lia. }
        split; intros; [lia|nia].
      - assert (2 * Ac <= A).
        { unfold A, Ac. replace (2 * 2 ^ (- ec - 1)) with (2 ^ (- ec))
            by (replace (- ec) with (Z.succ (- ec - 1)) at 1 by lia;
                rewrite Z.pow_succ_r by lia; reflexivity).
          apply Z.pow_le_mono_r; lia. }
        split; intros; [nia|lia]. }
    unfold SFleb, SFcompare.
    destruct sc, s; cbn [cond_Zopp]; try (split; intros; try lia; discriminate).
    + rewrite <- (Z.opp_le_mono n r). rewrite (Hmain eq_refl).
      destruct (Z.compare_spec e ec); [subst e| |].
      * change (Pos.compare_cont Eq m mc) with (Pos.compare m mc).
        destruct (Pos.compare_spec m mc); cbn; split; intros; try lia; try discriminate;
          try reflexivity.
      * split; intros; [lia|discriminate].
      * split; intros; [reflexivity|lia].
    + rewrite (Hmain eq_refl).
      destruct (Z.compare_spec ec e); [subst e| |].
      * change (Pos.compare_cont Eq mc m) with (Pos.compare mc m).
        destruct (Pos.compare_spec mc m); cbn; split; intros; try lia; try discriminate;
          try reflexivity.
      * split; intros; [reflexivity|lia].
      * split; intros; [lia|discriminate].
Qed.

(** A float between two floats of the [int] range is storable. *)
Lemma between_storable (lo hi x : float) :
  (Py.float_of_int C.INT_MIN <=? lo)%float = true ->
  (hi <=? Py.float_of_int C.INT_MAX)%float = true ->
  (lo <=? x)%float = true -> (x <=? hi)%float = true ->
  storable x.
Proof.
  intros Hlo Hhi Lx Xh. split.
  - unfold is_nan. rewrite eqb_spec. rewrite leb_spec in Lx.
    unfold SFeqb. rewrite SFcompare_refl; [reflexivity|].
    intros En. rewrite En in Lx. unfold SFleb in Lx.
    destruct (Prim2SF lo); discriminate.
  - unfold Rect.raises, Py.gt. apply orb_false_intro.
    + apply leb_not_ltb. apply (leb_trans x hi _ Xh Hhi).
    + apply leb_not_ltb. apply (leb_trans _ lo x Hlo Lx).
Qed.

(** [pg_round] of a float between two half-integers. *)
Lemma pg_round_within (x clo chi : float) (nlo nhi : Z) (mlo mhi : positive)
    (elo ehi : Z) :
  Prim2SF clo = S754_finite false mlo elo -> -53 <= elo <= -1 -> 2 <= nlo ->
  Zpos mlo = (2 * nlo - 1) * 2 ^ (- elo - 1) ->
  Prim2SF chi = S754_finite false mhi ehi -> -53 <= ehi <= -1 -> 1 <= nhi ->
  Zpos mhi = (2 * (nhi + 1) - 1) * 2 ^ (- ehi - 1) ->
  storable x ->
  (clo <=? x)%float = true -> (x <? chi)%float = true ->
  nlo <= C.pg_round x <= nhi.
Proof.
  intros Elo Hlo Nlo Mlo Ehi Hhi Nhi Mhi Hx Lx Xh.
  pose proof (pg_round_threshold x clo nlo false mlo elo Elo Hlo Nlo Mlo Hx) as Tlo.
  pose proof (pg_round_threshold x chi (nhi + 1) false mhi ehi Ehi Hhi ltac:(lia) Mhi Hx)
    as Thi.
  cbv beta iota in Tlo, Thi.
  apply ltb_not_leb in Xh.
  split.
  - apply Tlo. exact Lx.
  - destruct (Z_le_gt_dec (C.pg_round x) nhi) as [|Hgt]; [assumption|].
    assert (Hge : nhi + 1 <= C.pg_round x) by lia.
    apply Thi in Hge. congruence.
Qed.
End Rounding.

(** ** The spawn interval (C3) *)

Section SpawnInterval.
Context `{Libm} {R : Type} `{RandomSource R}.

(** A property that holds of 0, 1, ..., 63 by evaluation holds below 64. *)
Lemma below_64 (P : Z -> bool) :
  forallb (fun k => P (Z.of_nat k)) (seq 0 64) = true ->
  forall s, 0 <= s < 64 -> P s = true.
Proof.
  intros Hall s Hs. rewrite forallb_forall in Hall.
  specialize (Hall (Z.to_nat s)). rewrite Z2Nat.id in Hall by lia.
  apply Hall. apply in_seq. lia.
Qed.

Lemma spawn_interval_from_64 (s : Z) : 64 <= s -> spawn_interval s = 0.35%float.
Proof.
  intros Hs. unfold spawn_interval, Py.min.
  rewrite FloatFacts.float_of_int_div50 by assumption.
  vm_compute. reflexivity.
Qed.

Lemma spawn_interval_from_33 (s : Z) : 33 <= s -> spawn_interval s = 0.35%float.
Proof.
  intros Hs. destruct (Z_lt_le_dec s 64) as [Hlt|Hge].
  - pose proof (below_64
      (fun s => if 33 <=? s then Leibniz.eqb (spawn_interval s) 0.35 else true)
      ltac:(vm_compute; reflexivity) s ltac:(lia)) as Hk.
    cbv beta in Hk. destruct (Z.leb_spec 33 s); [|lia].
    apply Leibniz.eqb_spec. exact Hk.
  - apply spawn_interval_from_64. assumption.
Qed.

Lemma spawn_interval_upto_32 (s : Z) :
  0 <= s <= 32 -> spawn_interval s = (1.0 - Py.float_of_int s / 50.0)%float.
Proof.
  intros Hs.
  pose proof (below_64
    (fun s => if s <=? 32
              then Leibniz.eqb (spawn_interval s) (1.0 - Py.float_of_int s / 50.0)
              else true)
    ltac:(vm_compute; reflexivity) s ltac:(lia)) as Hk.
  cbv beta in Hk. destruct (Z.leb_spec s 32); [|lia].
  apply Leibniz.eqb_spec. exact Hk.
Qed.

Lemma spawn_interval_floor (s : Z) : Py.le 0.35 (spawn_interval s) = true.
Proof.
  unfold spawn_interval, Py.max, Py.le.
  destruct (0.35 <? _)%float eqn:E.
  - apply FloatFacts.ltb_leb. exact E.
  - vm_compute. reflexivity.
Qed.

Lemma spawn_interval_mono (s1 s2 : Z) :
  0 <= s1 <= s2 -> Py.le (spawn_interval s2) (spawn_interval s1) = true.
Proof.
  intros Hs. destruct (Z_lt_le_dec s2 33) as [Hlt|Hge].
  - pose proof (below_64
      (fun a => forallb (fun k => if a <=? Z.of_nat k
                                  then Py.le (spawn_interval (Z.of_nat k)) (spawn_interval a)
                                  else true) (seq 0 33))
      ltac:(vm_compute; reflexivity) s1 ltac:(lia)) as Hk.
    cbv beta in Hk. rewrite forallb_forall in Hk.
    specialize (Hk (Z.to_nat s2)). rewrite Z2Nat.id in Hk by lia.
    destruct (Z.leb_spec s1 s2); [|lia].
    apply Hk. apply in_seq. lia.
  - rewrite (spawn_interval_from_33 s2) by assumption. apply spawn_interval_floor.
Qed.

Lemma spawn_enemy_length (enemies : list Enemy.t) (r : R) :
  length (fst (spawn_enemy enemies r)) = S (length enemies).
Proof.
  unfold spawn_enemy, uniform, Enemy.init, uniform.
  repeat destruct (random _) as [? ?]. cbn [fst].
  rewrite length_app. simpl. lia.
Qed.

Lemma spawn_enemy_appends (enemies : list Enemy.t) (r : R) :
  exists e, fst (spawn_enemy enemies r) = enemies ++ [e].
Proof.
  unfold spawn_enemy, uniform, Enemy.init, uniform.
  repeat destruct (random _) as [? ?]. cbn [fst].
  eexists. reflexivity.
Qed.

(** What the pass before the collisions does to the spawn timer and to the
    enemies: the timer takes [dt]; when it has reached the interval of the
    score an enemy joins the group and the timer restarts; then the group is
    updated. *)
Lemma advance_spawn (dt : float) (keys : Keys) (g : Game R) :
  let timer := (spawn_timer g + dt)%float in
  let due := Py.ge timer (spawn_interval (Player.score (player g))) in
  spawn_timer (advance dt keys g) = (if due then 0.0%float else timer)
  /\ enemy_group (advance dt keys g)
     = group_update (Enemy.update dt)
         (if due then fst (spawn_enemy (enemy_group g) (rng g)) else enemy_group g).
Proof.
  cbv zeta. unfold advance, spawn_step.
  destruct (Py.ge _ _).
  - destruct (spawn_enemy (enemy_group g) (rng g)) as [es r].
    destruct (shooting _ _ _) as [p bs].
    destruct (update_stars _ _ _ _). split; reflexivity.
  - destruct (shooting _ _ _) as [p bs].
    destruct (update_stars _ _ _ _). split; reflexivity.
Qed.

(** The two collision passes leave the spawn timer alone. *)
Lemma collisions_keep_timer (g : Game R) :
  spawn_timer (collide_player (collide_bullets g)) = spawn_timer g.
Proof.
  assert (Hb : spawn_timer (collide_bullets g) = spawn_timer g).
  { unfold collide_bullets.
    destruct (groupcollide _ _) as [[hits es] bs].
    destruct (award_hits _ _ _ _) as [[p ps] r]. reflexivity. }
  rewrite <- Hb. generalize (collide_bullets g). clear Hb. intros g1.
  unfold collide_player.
  destruct (spritecollide _ _ _) as [[|e crashed] rest]; [reflexivity|].
  destruct (spawn_explosion _ _ _) as [ps r].
  destruct (_ <=? 0); [|reflexivity].
  destruct (spawn_explosion _ _ _) as [ps2 r2].
  destruct (spawn_explosions _ _ _). reflexivity.
Qed.

(** The spawn timer and the enemies of an unpaused frame. *)
Lemma frame_spawn (dt : float) (evs : list Event) (keys : Keys) (g : Game R) :
  paused (handle_events evs g) = false ->
  let due := Py.ge (spawn_timer g + dt) (spawn_interval (Player.score (player g))) in
  spawn_timer (frame dt evs keys g)
  = (if due then 0.0%float else (spawn_timer g + dt)%float)
  /\ enemy_group (advance dt keys (handle_events evs g))
     = group_update (Enemy.update dt)
         (if due then fst (spawn_enemy (enemy_group g) (rng g)) else enemy_group g).
Proof.
  intros Hp. cbv zeta. unfold frame. rewrite Hp, collisions_keep_timer.
  destruct (advance_spawn dt keys (handle_events evs g)) as [Ht He].
  cbv zeta in Ht, He. unfold handle_events in Ht, He |- *.
  destruct (fold_left handle_event evs (running g, paused g)) as [rn ps].
  cbn [spawn_timer player enemy_group rng] in Ht, He. split; assumption.
Qed.

(** C3.  The spawn interval of a score [s >= 0] is
    [max(0.35, 1.0 - min(s / 50.0, 0.7))]: it is [1.0 - s / 50.0] up to
    [s = 32] and 0.35 from [s = 33] on.  It never increases with the score
    and is never below 0.35; it is 1.0 at score 0 and 0.35 at score 100.
    (From [2^1024] on, where CPython's conversion of the score raises, the
    model's conversion gives [+infinity] and the interval is still 0.35.)

    An unpaused frame adds [dt] to the spawn timer.  When the timer has then
    reached the interval of the score the frame started with, one enemy
    joins the group, behind the others and before the group is updated, and
    the frame ends with the timer at 0.0; otherwise no enemy joins and the
    frame ends with the timer at the sum.  The collisions of the frame do not
    touch the timer. *)
Theorem spawn_interval_and_timer :
  (forall s, 0 <= s ->
     spawn_interval s
     = Py.max 0.35 (1.0 - Py.min (Py.float_of_int s / 50.0) 0.7)%float
     /\ (s <= 32 -> spawn_interval s = (1.0 - Py.float_of_int s / 50.0)%float)
     /\ (33 <= s -> spawn_interval s = 0.35%float))
  /\ (forall s1 s2, 0 <= s1 <= s2 ->
        Py.le (spawn_interval s2) (spawn_interval s1) = true)
  /\ (forall s, 0 <= s -> Py.le 0.35 (spawn_interval s) = true)
  /\ spawn_interval 0 = 1.0%float
  /\ spawn_interval 100 = 0.35%float
  /\ (forall (dt : float) (evs : list Event) (keys : Keys) (g : Game R),
        paused (handle_events evs g) = false ->
        let timer := (spawn_timer g + dt)%float in
        let due := Py.ge timer (spawn_interval (Player.score (player g))) in
        let g1 := advance dt keys (handle_events evs g) in
        frame dt evs keys g = collide_player (collide_bullets g1)
        /\ spawn_timer (frame dt evs keys g) = (if due then 0.0%float else timer)
        /\ enemy_group g1
           = group_update (Enemy.update dt)
               (if due then fst (spawn_enemy (enemy_group g) (rng g)) else enemy_group g))
  /\ (forall enemies (r : R), exists e, fst (spawn_enemy enemies r) = enemies ++ [e]).
Proof.
  split; [|split; [|split; [|split; [|split; [|split]]]]].
  - intros s Hs. split; [reflexivity|]. split.
    + intros. apply spawn_interval_upto_32. lia.
    + apply spawn_interval_from_33.
  - apply spawn_interval_mono.
  - intros. apply spawn_interval_floor.
  - vm_compute. reflexivity.
  - vm_compute. reflexivity.
  - intros dt evs keys g Hp. cbv zeta.
    split; [unfold frame; rewrite Hp; reflexivity|].
    exact (frame_spawn dt evs keys g Hp).
  - apply spawn_enemy_appends.
Qed.
End SpawnInterval.

(** ** The frame loop *)

Section FrameLoop.
Context `{Libm} {R : Type} `{RandomSource R}.

(** *** Events touch the two flags only *)

Lemma handle_events_state (evs : list Event) (g : Game R) :
  player (handle_events evs g) = player g
  /\ bullet_group (handle_events evs g) = bullet_group g
  /\ enemy_group (handle_events evs g) = enemy_group g
  /\ particle_group (handle_events evs g) = particle_group g
  /\ stars (handle_events evs g) = stars g
  /\ spawn_timer (handle_events evs g) = spawn_timer g
  /\ speed_factor (handle_events evs g) = speed_factor g
  /\ rng (handle_events evs g) = rng g.
Proof.
  unfold handle_events.
  destruct (fold_left handle_event evs (running g, paused g)). cbn. tauto.
Qed.

Lemma handle_events_nil (g : Game R) : handle_events [] g = g.
Proof. destruct g. reflexivity. Qed.

(** *** Explosions append particles at the given point *)

Lemma Particle_init_pos (p : Z * Z) (r : R) :
  Particle.pos (fst (Particle.init p r)) = Vector2.of_ints p.
Proof.
  unfold Particle.init, uniform.
  repeat match goal with
         | |- context [random ?x] => destruct (random x)
         | |- context [randint ?a ?b ?x] => destruct (randint a b x)
         end.
  reflexivity.
Qed.

Lemma spawn_particles_spec (n : nat) (p : Z * Z) :
  forall (group : list Particle.t) (r : R),
  exists new, fst (spawn_particles n p group r) = group ++ new
              /\ map Particle.pos new = repeat (Vector2.of_ints p) n.
Proof.
  induction n as [|n IH]; intros group r; cbn [spawn_particles].
  - exists []. rewrite app_nil_r. split; reflexivity.
  - pose proof (Particle_init_pos p r) as Hq.
    destruct (Particle.init p r) as [q r1]. cbn [fst] in Hq.
    destruct (IH (group ++ [q]) r1) as (new & E & Hpos).
    exists (q :: new). rewrite E, <- app_assoc. split; [reflexivity|].
    cbn [map repeat]. rewrite Hq, Hpos. reflexivity.
Qed.

Lemma spawn_explosion_spec (p : Z * Z) (group : list Particle.t) (r : R) :
  exists new, fst (spawn_explosion p group r) = group ++ new
              /\ map Particle.pos new = repeat (Vector2.of_ints p) PARTICLE_COUNT.
Proof. apply spawn_particles_spec. Qed.

Lemma spawn_explosions_spec (centers : list (Z * Z)) :
  forall (group : list Particle.t) (r : R),
  exists new, fst (spawn_explosions centers group r) = group ++ new
              /\ map Particle.pos new
                 = flat_map (fun c => repeat (Vector2.of_ints c) PARTICLE_COUNT) centers.
Proof.
  induction centers as [|c rest IH]; intros group r; cbn [spawn_explosions].
  - exists []. rewrite app_nil_r. split; reflexivity.
  - destruct (spawn_explosion_spec c group r) as (n1 & E1 & P1).
    destruct (spawn_explosion c group r) as [g1 r1]. cbn [fst] in E1. subst g1.
    destruct (IH (group ++ n1) r1) as (n2 & E2 & P2).
    exists (n1 ++ n2). rewrite E2, <- app_assoc. split; [reflexivity|].
    cbn [flat_map]. rewrite map_app, P1, P2. reflexivity.
Qed.

(** *** The pass before the collisions keeps score and lives *)

Lemma shooting_counters (keys : Keys) (p : Player.t) (bullets : list Bullet.t) :
  Player.score (fst (shooting keys p bullets)) = Player.score p
  /\ Player.lives (fst (shooting keys p bullets)) = Player.lives p
  /\ Player.rect (fst (shooting keys p bullets)) = Player.rect p
  /\ Player.pos (fst (shooting keys p bullets)) = Player.pos p.
Proof.
  unfold shooting. destruct (_ && _); cbn; tauto.
Qed.

Lemma advance_player (dt : float) (keys : Keys) (g : Game R) :
  player (advance dt keys g)
  = fst (shooting keys (Player.update dt keys (player g)) (bullet_group g)).
Proof.
  unfold advance.
  destruct (spawn_step _ _ _ _ _) as [[t es] r].
  destruct (shooting _ _ _) as [p bs].
  destruct (update_stars _ _ _ _). reflexivity.
Qed.

Lemma advance_flags (dt : float) (keys : Keys) (g : Game R) :
  running (advance dt keys g) = running g /\ paused (advance dt keys g) = paused g.
Proof.
  unfold advance.
  destruct (spawn_step _ _ _ _ _) as [[t es] r].
  destruct (shooting _ _ _) as [p bs].
  destruct (update_stars _ _ _ _). split; reflexivity.
Qed.

Lemma advance_counters (dt : float) (keys : Keys) (g : Game R) :
  Player.score (player (advance dt keys g)) = Player.score (player g)
  /\ Player.lives (player (advance dt keys g)) = Player.lives (player g).
Proof.
  rewrite advance_player.
  destruct (shooting_counters keys (Player.update dt keys (player g)) (bullet_group g))
    as (Hs & Hl & _).
  rewrite Hs, Hl. split; reflexivity.
Qed.

(** *** The bullet pass *)

Lemma award_hits_spec (hits : list (Enemy.t * list Bullet.t)) :
  forall (p : Player.t) (particles : list Particle.t) (r : R),
  let p' := fst (fst (award_hits hits p particles r)) in
  Player.score p' = Player.score p + 10 * Z.of_nat (length hits)
  /\ Player.lives p' = Player.lives p
  /\ Player.rect p' = Player.rect p
  /\ Player.pos p' = Player.pos p
  /\ exists new,
       snd (fst (award_hits hits p particles r)) = particles ++ new
       /\ map Particle.pos new
          = flat_map (fun h => repeat (Vector2.of_ints (Rect.center (Enemy.rect (fst h))))
                                      PARTICLE_COUNT) hits.
Proof.
  induction hits as [|[e bl] rest IH]; intros p particles r; cbn [award_hits].
  - cbn. repeat split; try lia. exists []. rewrite app_nil_r. split; reflexivity.
  - destruct (spawn_explosion_spec (Rect.center (Enemy.rect e)) particles r)
      as (n1 & E1 & P1).
    destruct (spawn_explosion _ particles r) as [ps1 r1]. cbn [fst] in E1. subst ps1.
    specialize (IH (Player.set_score (Player.score p + 10) p) (particles ++ n1) r1).
    cbv zeta in IH |- *.
    destruct IH as (Hs & Hl & Hr & Hp & n2 & E2 & P2).
    rewrite Hs, Hl, Hr, Hp. cbn [Player.set_score Player.score Player.lives
                                 Player.rect Player.pos length].
    repeat split; try lia.
    exists (n1 ++ n2). rewrite E2, <- app_assoc. split; [reflexivity|].
    cbn [flat_map fst]. rewrite map_app, P1, P2. reflexivity.
Qed.

Lemma collide_bullets_state (g : Game R) :
  let hits := fst (fst (groupcollide (enemy_group g) (bullet_group g))) in
  let g' := collide_bullets g in
  Player.score (player g') = Player.score (player g) + 10 * Z.of_nat (length hits)
  /\ Player.lives (player g') = Player.lives (player g)
  /\ Player.rect (player g') = Player.rect (player g)
  /\ Player.pos (player g') = Player.pos (player g)
  /\ enemy_group g' = snd (fst (groupcollide (enemy_group g) (bullet_group g)))
  /\ bullet_group g' = snd (groupcollide (enemy_group g) (bullet_group g))
  /\ running g' = running g
  /\ paused g' = paused g
  /\ exists new,
       particle_group g' = particle_group g ++ new
       /\ map Particle.pos new
          = flat_map (fun h => repeat (Vector2.of_ints (Rect.center (Enemy.rect (fst h))))
                                      PARTICLE_COUNT) hits.
Proof.
  unfold collide_bullets.
  destruct (groupcollide (enemy_group g) (bullet_group g)) as [[hits es] bs].
  pose proof (award_hits_spec hits (player g) (particle_group g) (rng g)) as Ha.
  destruct (award_hits hits (player g) (particle_group g) (rng g)) as [[p ps] r].
  cbn in Ha |- *. tauto.
Qed.

(** *** The player pass *)

Lemma filter_none_all {A : Type} (f : A -> bool) (l : list A) :
  filter f l = [] -> filter (fun a => negb (f a)) l = l.
Proof.
  induction l as [|a l IH]; cbn; [reflexivity|].
  destruct (f a); cbn; [discriminate|]. intros E. rewrite IH by assumption. reflexivity.
Qed.

(** The three ways the player pass can end: no enemy on the player and
    nothing changes; a life is lost and some remain; the last life is lost and
    the session is reset. *)
Lemma collide_player_cases (g : Game R) :
  let crashed := fst (spritecollide Enemy.rect (Player.rect (player g)) (enemy_group g)) in
  let rest := snd (spritecollide Enemy.rect (Player.rect (player g)) (enemy_group g)) in
  let c := Rect.center (Player.rect (player g)) in
  let g' := collide_player g in
  (crashed = [] /\ g' = g)
  \/ (crashed <> [] /\ 0 < Player.lives (player g) - 1
      /\ player g' = Player.set_lives (Player.lives (player g) - 1) (player g)
      /\ bullet_group g' = bullet_group g
      /\ enemy_group g' = rest
      /\ exists new, particle_group g' = particle_group g ++ new
                     /\ map Particle.pos new = repeat (Vector2.of_ints c) PARTICLE_COUNT)
  \/ (crashed <> [] /\ Player.lives (player g) - 1 <= 0
      /\ Player.lives (player g') = 3
      /\ Player.score (player g') = 0
      /\ Player.rect (player g') = Player.rect (player g)
      /\ Player.pos (player g') = Player.pos (player g)
      /\ bullet_group g' = []
      /\ enemy_group g' = []
      /\ exists new,
           particle_group g' = particle_group g ++ new
           /\ map Particle.pos new
              = repeat (Vector2.of_ints c) (PARTICLE_COUNT + PARTICLE_COUNT)
                ++ flat_map (fun e => repeat (Vector2.of_ints (Rect.center (Enemy.rect e)))
                                             PARTICLE_COUNT) rest).
Proof.
  cbv zeta. unfold collide_player, spritecollide. cbn [fst snd].
  destruct (filter _ (enemy_group g)) as [|e0 crashed] eqn:Ecr.
  - left. split; [reflexivity|].
    rewrite filter_none_all by exact Ecr. destruct g; reflexivity.
  - right.
    set (p1 := Player.set_lives (Player.lives (player g) - 1) (player g)).
    set (rest := filter _ (enemy_group g)).
    assert (Hc : Rect.center (Player.rect p1) = Rect.center (Player.rect (player g)))
      by reflexivity.
    rewrite Hc.
    set (c := Rect.center (Player.rect (player g))).
    destruct (spawn_explosion_spec c (particle_group g) (rng g)) as (n1 & E1 & P1).
    destruct (spawn_explosion c (particle_group g) (rng g)) as [ps1 r1].
    cbn [fst] in E1. subst ps1.
    change (Player.lives p1) with (Player.lives (player g) - 1).
    destruct (Z.leb_spec (Player.lives (player g) - 1) 0) as [Hle|Hgt].
    + right. split; [discriminate|]. split; [assumption|].
      destruct (spawn_explosion_spec c (particle_group g ++ n1) r1) as (n2 & E2 & P2).
      destruct (spawn_explosion c (particle_group g ++ n1) r1) as [ps2 r2].
      cbn [fst] in E2. subst ps2.
      destruct (spawn_explosions_spec
                  (map (fun e => Rect.center (Enemy.rect e)) rest)
                  ((particle_group g ++ n1) ++ n2) r2) as (n3 & E3 & P3).
      destruct (spawn_explosions _ ((particle_group g ++ n1) ++ n2) r2) as [ps3 r3].
      cbn [fst] in E3. subst ps3.
      cbn [player bullet_group enemy_group particle_group Player.set_lives
           Player.set_score Player.lives Player.score Player.rect Player.pos].
      repeat split.
      exists (n1 ++ n2 ++ n3). rewrite <- !app_assoc. split; [reflexivity|].
      rewrite !map_app, P1, P2, P3, repeat_app, <- app_assoc.
      rewrite flat_map_concat_map, map_map, <- flat_map_concat_map. reflexivity.
    + left. split; [discriminate|]. split; [assumption|].
      cbn [player bullet_group enemy_group particle_group].
      repeat split. exists n1. split; [reflexivity|assumption].
Qed.

Lemma collide_player_flags (g : Game R) :
  running (collide_player g) = running g /\ paused (collide_player g) = paused g.
Proof.
  unfold collide_player.
  destruct (spritecollide _ _ _) as [[|e crashed] rest]; [split; reflexivity|].
  destruct (spawn_explosion _ _ _) as [ps r].
  destruct (_ <=? 0); [|split; reflexivity].
  destruct (spawn_explosion _ _ _) as [ps2 r2].
  destruct (spawn_explosions _ _ _). split; reflexivity.
Qed.

Lemma collide_player_no_overlap (g : Game R) :
  Forall (fun e => Rect.colliderect (Player.rect (player (collide_player g)))
                                    (Enemy.rect e) = false)
         (enemy_group (collide_player g)).
Proof.
  assert (Hrest : Forall (fun e => Rect.colliderect (Player.rect (player g))
                                                    (Enemy.rect e) = false)
                         (snd (spritecollide Enemy.rect (Player.rect (player g))
                                             (enemy_group g)))).
  { apply Forall_forall. intros e He. cbn [spritecollide snd] in He.
    apply filter_In in He. destruct He as [_ He].
    apply negb_true_iff in He. exact He. }
  destruct (collide_player_cases g) as
    [(Ecr & ->) | [(_ & _ & Ep & _ & Ee & _) | (_ & _ & _ & _ & _ & _ & _ & Ee & _)]].
  - cbn [spritecollide fst snd] in *. rewrite filter_none_all in Hrest by exact Ecr.
    exact Hrest.
  - rewrite Ee, Ep. exact Hrest.
  - rewrite Ee. constructor.
Qed.

(** What a frame does to the two counters. *)
Lemma frame_counters (dt : float) (evs : list Event) (keys : Keys) (g : Game R) :
  let g' := frame dt evs keys g in
  (Player.lives (player g') = Player.lives (player g)
   /\ exists k, 0 <= k /\ Player.score (player g') = Player.score (player g) + 10 * k)
  \/ (1 < Player.lives (player g)
      /\ Player.lives (player g') = Player.lives (player g) - 1
      /\ exists k, 0 <= k /\ Player.score (player g') = Player.score (player g) + 10 * k)
  \/ (Player.lives (player g) <= 1
      /\ Player.lives (player g') = 3
      /\ Player.score (player g') = 0).
Proof.
  cbv zeta. unfold frame.
  destruct (handle_events_state evs g) as (Hp & _).
  set (g0 := handle_events evs g) in *.
  destruct (paused g0).
  - left. rewrite Hp. split; [reflexivity|]. exists 0. lia.
  - destruct (advance_counters dt keys g0) as (Hs1 & Hl1).
    destruct (collide_bullets_state (advance dt keys g0)) as (Hs2 & Hl2 & _).
    set (g2 := collide_bullets (advance dt keys g0)) in *.
    rewrite Hp in *.
    destruct (collide_player_cases g2) as
      [(_ & ->) | [(_ & Hpos & Ep & _) | (_ & Hle & El & Es & _)]].
    + left. split; [congruence|].
      eexists. split; [|rewrite Hs2, Hs1; reflexivity]. lia.
    + right; left. rewrite Ep. cbn [Player.set_lives Player.lives Player.score].
      split; [lia|]. split; [congruence|].
      eexists. split; [|rewrite Hs2, Hs1; reflexivity]. lia.
    + right; right. repeat split; [lia | assumption | assumption].
Qed.

(** C4.  A frame whose pause flag is set once its events are handled leaves
    every simulated thing as it was: the player (position, velocity, fire
    cooldown, score, lives), the bullet, enemy and particle groups, the
    stars, the spawn timer, the starfield speed factor and the random source
    (no spawn, no shot, no collision drew from it). *)
Theorem paused_frame_is_idle (dt : float) (evs : list Event) (keys : Keys) (g : Game R) :
  paused (handle_events evs g) = true ->
  let g' := frame dt evs keys g in
  player g' = player g
  /\ bullet_group g' = bullet_group g
  /\ enemy_group g' = enemy_group g
  /\ particle_group g' = particle_group g
  /\ stars g' = stars g
  /\ spawn_timer g' = spawn_timer g
  /\ speed_factor g' = speed_factor g
  /\ rng g' = rng g
  /\ paused g' = true.
Proof.
  intros Hp g'. subst g'. unfold frame. rewrite Hp.
  pose proof (handle_events_state evs g). tauto.
Qed.

(** The invariant of the two counters at a frame boundary. *)
Lemma frame_keeps_counters_sane (dt : float) (evs : list Event) (keys : Keys) (g : Game R) :
  (1 <= Player.lives (player g) <= 3
   /\ 0 <= Player.score (player g) /\ Player.score (player g) mod 10 = 0) ->
  let g' := frame dt evs keys g in
  1 <= Player.lives (player g') <= 3
  /\ 0 <= Player.score (player g') /\ Player.score (player g') mod 10 = 0.
Proof.
  intros (Hl & Hs & Hm) g'. subst g'.
  destruct (frame_counters dt evs keys g) as
    [(El & k & Hk & Es) | [(H1 & El & k & Hk & Es) | (H1 & El & Es)]];
    rewrite El, Es; repeat split; try lia.
  - rewrite (Z.mul_comm 10 k), Z.mod_add by lia. exact Hm.
  - rewrite (Z.mul_comm 10 k), Z.mod_add by lia. exact Hm.
Qed.

Lemma main_init_player (r : R) :
  player (main_init r) = Player.init (Z.div WIDTH 2, HEIGHT - 100).
Proof. unfold main_init. destruct (create_starfield 140 r). reflexivity. Qed.

(** C9.  At every frame boundary of a session (the state [main] starts
    from, run through any inputs) the lives are 1, 2 or 3 and the score is a
    non-negative multiple of 10; in particular 0 lives are never seen there. *)
Theorem lives_and_score_at_frame_boundaries (r : R) (inputs : list Input) :
  let g := run inputs (main_init r) in
  1 <= Player.lives (player g) <= 3
  /\ 0 <= Player.score (player g)
  /\ Player.score (player g) mod 10 = 0.
Proof.
  cbv zeta.
  assert (Hinit : 1 <= Player.lives (player (main_init r)) <= 3
                  /\ 0 <= Player.score (player (main_init r))
                  /\ Player.score (player (main_init r)) mod 10 = 0).
  { rewrite main_init_player. cbn. repeat split; lia. }
  generalize dependent (main_init r). clear r.
  induction inputs as [|i rest IH]; intros g Hg; cbn [run]; [exact Hg|].
  destruct (running g); [|exact Hg].
  apply IH. unfold tick. apply frame_keeps_counters_sane. exact Hg.
Qed.

(** C10.  Whatever the number of enemies on the player, a frame takes at
    most one life: the lives after the frame are the lives before, or one
    less, or 3 by the reset that follows the loss of the last one.  When
    enemies are on the player and more than one life is left, exactly one life
    goes, whatever their number; and no enemy that overlaps the player is left
    in the group after an unpaused frame. *)
Theorem one_life_per_frame (dt : float) (evs : list Event) (keys : Keys) (g : Game R) :
  let g' := frame dt evs keys g in
  let before := collide_bullets (advance dt keys (handle_events evs g)) in
  let on_player :=
    fst (spritecollide Enemy.rect (Player.rect (player before)) (enemy_group before)) in
  Player.lives (player g) - 1 <= Player.lives (player g')
  /\ (Player.lives (player g') = Player.lives (player g)
      \/ Player.lives (player g') = Player.lives (player g) - 1
      \/ (Player.lives (player g') = 3 /\ Player.lives (player g) <= 1))
  /\ (paused (handle_events evs g) = false ->
      (on_player <> [] -> 1 < Player.lives (player g) ->
       Player.lives (player g') = Player.lives (player g) - 1)
      /\ Forall (fun e => Rect.colliderect (Player.rect (player g')) (Enemy.rect e) = false)
                (enemy_group g')).
Proof.
  cbv zeta. split; [|split].
  - destruct (frame_counters dt evs keys g) as
      [(El & _) | [(H1 & El & _) | (H1 & El & _)]]; lia.
  - destruct (frame_counters dt evs keys g) as
      [(El & _) | [(H1 & El & _) | (H1 & El & _)]]; [left|right;left|right;right]; lia.
  - intros Hp. unfold frame. rewrite Hp. split; [|apply collide_player_no_overlap].
    destruct (handle_events_state evs g) as (Hpl & _).
    set (g0 := handle_events evs g) in *.
    destruct (advance_counters dt keys g0) as (_ & Hl1).
    destruct (collide_bullets_state (advance dt keys g0)) as (_ & Hl2 & _).
    set (g2 := collide_bullets (advance dt keys g0)) in *.
    intros Hon Hlives.
    destruct (collide_player_cases g2) as
      [(Ecr & _) | [(_ & _ & Ep & _) | (_ & Hle & _)]].
    + contradiction.
    + rewrite Ep. cbn [Player.set_lives Player.lives]. congruence.
    + rewrite Hl2, Hl1, Hpl in Hle. lia.
Qed.

(** C1.  In an unpaused frame, when an enemy is on the player in the
    enemy-player pass and the decrement leaves no life ([lives - 1 <= 0]),
    the same frame ends with 3 lives, score 0, no enemy and no bullet.  The
    particles are kept, and after them come two bursts at the player and one
    burst at each enemy that was still alive (18 particles a burst).  The
    [running] flag is what the events of the frame made it: the reset does not
    stop the loop. *)
Theorem soft_reset_on_last_life
    (dt : float) (evs : list Event) (keys : Keys) (g : Game R) :
  let g0 := handle_events evs g in
  let before := collide_bullets (advance dt keys g0) in
  let on_player :=
    fst (spritecollide Enemy.rect (Player.rect (player before)) (enemy_group before)) in
  let alive :=
    snd (spritecollide Enemy.rect (Player.rect (player before)) (enemy_group before)) in
  let c := Rect.center (Player.rect (player before)) in
  paused g0 = false ->
  on_player <> [] ->
  Player.lives (player before) - 1 <= 0 ->
  let g' := frame dt evs keys g in
  Player.lives (player g') = 3
  /\ Player.score (player g') = 0
  /\ enemy_group g' = []
  /\ bullet_group g' = []
  /\ (exists bursts,
        particle_group g' = particle_group before ++ bursts
        /\ map Particle.pos bursts
           = repeat (Vector2.of_ints c) (PARTICLE_COUNT + PARTICLE_COUNT)
             ++ flat_map (fun e => repeat (Vector2.of_ints (Rect.center (Enemy.rect e)))
                                          PARTICLE_COUNT) alive)
  /\ running g' = running g0.
Proof.
  cbv zeta. intros Hp Hon Hlast. unfold frame. rewrite Hp.
  set (g0 := handle_events evs g) in *.
  set (g2 := collide_bullets (advance dt keys g0)) in *.
  assert (Hrun : running (collide_player g2) = running g0).
  { destruct (collide_player_flags g2) as (-> & _).
    destruct (collide_bullets_state (advance dt keys g0))
      as (_ & _ & _ & _ & _ & _ & Hr & _).
    fold g2 in Hr. rewrite Hr. apply advance_flags. }
  destruct (collide_player_cases g2) as
    [(Ecr & _) | [(_ & Hpos & _) | (_ & _ & El & Es & _ & _ & Eb & Ee & Hnew)]].
  - contradiction.
  - lia.
  - repeat split; assumption.
Qed.

(** *** What [groupcollide] destroys *)

Lemma kept_and_dropped (A : Type) (keep : A -> bool) (xs : list A) :
  Permutation (filter keep xs ++ filter (fun x => negb (keep x)) xs) xs.
Proof.
  induction xs as [|x xs IH]; cbn; [constructor|].
  destruct (keep x); cbn.
  - constructor. exact IH.
  - apply Permutation_sym, Permutation_cons_app, Permutation_sym, IH.
Qed.

Lemma groupcollide_spec (enemies : list Enemy.t) :
  forall bullets : list Bullet.t,
  let hits := fst (fst (groupcollide enemies bullets)) in
  let es := snd (fst (groupcollide enemies bullets)) in
  let bs := snd (groupcollide enemies bullets) in
  Permutation enemies (map fst hits ++ es)
  /\ Permutation bullets (flat_map snd hits ++ bs)
  /\ Forall (fun h => snd h <> []
                      /\ Forall (fun b => Rect.colliderect (Enemy.rect (fst h))
                                                           (Bullet.rect b) = true)
                                (snd h)) hits
  /\ Forall (fun e => Forall (fun b => Rect.colliderect (Enemy.rect e)
                                                        (Bullet.rect b) = false) bs)
            enemies.
Proof.
  induction enemies as [|e rest IH]; intros bullets; cbn [groupcollide].
  - cbn. repeat split; constructor || apply Permutation_refl.
  - unfold spritecollide.
    set (col := filter (fun b => Rect.colliderect (Enemy.rect e) (Bullet.rect b)) bullets).
    set (bs1 := filter (fun b => negb (Rect.colliderect (Enemy.rect e) (Bullet.rect b)))
                       bullets).
    specialize (IH bs1). cbv zeta in IH.
    destruct (groupcollide rest bs1) as [[hits es] bs]. cbn [fst snd] in IH.
    destruct IH as (Pe & Pb & Fh & Fe).
    assert (Hpart : Permutation bullets (col ++ bs1))
      by apply Permutation_sym, kept_and_dropped.
    assert (Hcol : Forall (fun b => Rect.colliderect (Enemy.rect e) (Bullet.rect b) = true)
                          col).
    { apply Forall_forall. intros b Hb. apply filter_In in Hb. tauto. }
    assert (Hbs : Forall (fun b => Rect.colliderect (Enemy.rect e) (Bullet.rect b) = false)
                         bs).
    { apply Forall_forall. intros b Hb.
      assert (Hin : In b bs1).
      { apply (Permutation_in _ (Permutation_sym Pb)). apply in_or_app. right. exact Hb. }
      apply filter_In in Hin. destruct Hin as [_ Hin].
      apply negb_true_iff in Hin. exact Hin. }
    destruct col as [|b0 col'] eqn:Ecol; cbn [fst snd map flat_map app].
    + repeat split.
      * apply Permutation_cons_app. exact Pe.
      * cbn [app] in Hpart. rewrite Hpart. exact Pb.
      * exact Fh.
      * constructor; assumption.
    + repeat split.
      * constructor. exact Pe.
      * rewrite Hpart. cbn [app]. constructor.
        rewrite <- app_assoc. apply Permutation_app_head. exact Pb.
      * constructor; [|exact Fh]. cbn [fst snd]. split; [discriminate|exact Hcol].
      * constructor; assumption.
Qed.

End FrameLoop.

(** ** The player stays on screen (C5) *)

Section PlayerBounds.
Context `{Libm} {R : Type} `{RandomSource R}.

(** [clamp] lands in [[a, b]], whatever [v] is: a NaN or [+infinity] gives
    [b], [-infinity] gives [a]. *)
Lemma clamp_in_range (v a b : float) :
  (a <=? b)%float = true -> (a <=? a)%float = true -> (b <=? b)%float = true ->
  is_finite a = true -> is_finite b = true ->
  Py.le a (clamp v a b) = true
  /\ Py.le (clamp v a b) b = true
  /\ is_finite (clamp v a b) = true.
Proof.
  intros Hab Haa Hbb Fa Fb. unfold clamp, Py.max, Py.min, Py.le.
  destruct (v <? b)%float eqn:Evb.
  - destruct (a <? v)%float eqn:Eav.
    + repeat split; [apply FloatFacts.ltb_leb | apply FloatFacts.ltb_leb
                     | apply (FloatFacts.between_finite a v b)]; assumption.
    + repeat split; assumption.
  - destruct (a <? b)%float; repeat split; assumption.
Qed.

Lemma Player_update_on_screen (dt : float) (keys : Keys) (p : Player.t) :
  player_sized p ->
  player_sized (Player.update dt keys p) /\ on_screen (Player.update dt keys p).
Proof.
  intros [Hw Hh]. split; [split; cbn; assumption|].
  unfold on_screen, Player.update.
  cbn [Player.rect Player.pos Rect.set_center Rect.set_center_int Rect.w Rect.h
       Vector2.x Vector2.y].
  rewrite Hw, Hh.
  set (x := Vector2.x _). set (y := Vector2.y _).
  change (Py.int_truediv (fst PLAYER_SIZE) 2) with 24%float.
  change (Py.int_truediv (snd PLAYER_SIZE) 2) with 18%float.
  change (Py.float_of_int WIDTH - 24)%float with 876%float.
  change (Py.float_of_int HEIGHT - 18)%float with 582%float.
  destruct (clamp_in_range x 24 876) as (X1 & X2 & X3); try (vm_compute; reflexivity).
  destruct (clamp_in_range y 18 582) as (Y1 & Y2 & Y3); try (vm_compute; reflexivity).
  tauto.
Qed.

Lemma on_screen_ext (p q : Player.t) :
  Player.rect q = Player.rect p -> Player.pos q = Player.pos p ->
  player_sized p /\ on_screen p -> player_sized q /\ on_screen q.
Proof.
  unfold player_sized, on_screen. intros -> ->. tauto.
Qed.

Lemma frame_keeps_player_on_screen
    (dt : float) (evs : list Event) (keys : Keys) (g : Game R) :
  player_sized (player g) /\ on_screen (player g) ->
  player_sized (player (frame dt evs keys g)) /\ on_screen (player (frame dt evs keys g)).
Proof.
  intros Hg. unfold frame.
  destruct (handle_events_state evs g) as (Hp & _).
  set (g0 := handle_events evs g) in *.
  destruct (paused g0); [rewrite Hp; exact Hg|].
  assert (H1 : player_sized (player (advance dt keys g0))
               /\ on_screen (player (advance dt keys g0))).
  { rewrite advance_player, Hp.
    destruct (shooting_counters keys (Player.update dt keys (player g)) (bullet_group g0))
      as (_ & _ & Hr & Hpos).
    apply (on_screen_ext _ _ Hr Hpos).
    apply Player_update_on_screen. apply Hg. }
  destruct (collide_bullets_state (advance dt keys g0)) as (_ & _ & Hr2 & Hp2 & _).
  pose proof (on_screen_ext _ _ Hr2 Hp2 H1) as H2.
  set (g2 := collide_bullets (advance dt keys g0)) in *.
  destruct (collide_player_cases g2) as
    [(_ & ->) | [(_ & _ & Ep & _) | (_ & _ & _ & _ & Er & Epos & _)]].
  - exact H2.
  - rewrite Ep. exact H2.
  - exact (on_screen_ext _ _ Er Epos H2).
Qed.

(** C5.  The player of every reachable state is on screen, and so is the
    player after [Player.update(dt, keys)] from such a state, for every [dt]
    (negative, infinite and NaN included) and every set of held keys: both
    coordinates are finite, [width/2 <= x <= WIDTH - width/2] and
    [height/2 <= y <= HEIGHT - height/2]. *)
Theorem player_on_screen (r : R) (inputs : list Input) (dt : float) (keys : Keys) :
  let p := player (run inputs (main_init r)) in
  on_screen p /\ on_screen (Player.update dt keys p).
Proof.
  cbv zeta.
  assert (Hinit : player_sized (player (main_init r)) /\ on_screen (player (main_init r))).
  { rewrite main_init_player. split; [split; reflexivity|].
    unfold on_screen. vm_compute. tauto. }
  assert (Hreach : forall g : Game R,
             player_sized (player g) /\ on_screen (player g) ->
             player_sized (player (run inputs g)) /\ on_screen (player (run inputs g))).
  { induction inputs as [|i rest IH]; intros g Hg; cbn [run]; [exact Hg|].
    destruct (running g); [|exact Hg].
    apply IH. unfold tick. apply frame_keeps_player_on_screen. exact Hg. }
  destruct (Hreach _ Hinit) as [Hs Ho]. split; [exact Ho|].
  apply Player_update_on_screen. exact Hs.
Qed.
End PlayerBounds.

(** ** The sprites' updates (C6, C7, C8) *)

Section Sprites.
Context `{Libm} {R : Type} `{RandomSource R}.

Lemma Bullet_init_shape (p : Vector2.t) :
  Bullet.vel (Bullet.init p) = Vector2.mk 0 (-700)
  /\ Rect.h (Bullet.rect (Bullet.init p)) = snd BULLET_SIZE.
Proof. split; reflexivity. Qed.

Lemma Rect_center_set_center_int (r : Rect.t) (c : Z * Z) :
  Rect.center (Rect.set_center_int r c) = c.
Proof.
  destruct c as [cx cy]. unfold Rect.center, Rect.centerx, Rect.centery, Rect.set_center_int.
  cbn [fst snd Rect.x Rect.y Rect.w Rect.h]. f_equal; lia.
Qed.

(** C6, as the code has it.  [Bullet.update(dt)] adds [(0, -700) * dt] to
    the position and keeps the velocity.  The box, 14 high, is centred on the
    new position rounded to the nearest integers, and the bullet is destroyed
    by the update exactly when the bottom edge of the box is above -20: when
    the rounded new [y] is at most -28, that is when the new [y] is at most
    -27.5.  The statements on the box are for a new position that [Rect]
    stores (outside the range of a C [int] the assignment raises and the
    update does not complete) and a box whose edges are C [int]s. *)
Theorem bullet_update_spec (dt : float) (b : Bullet.t) :
  Bullet.vel b = Vector2.mk 0 (-700) ->
  Rect.h (Bullet.rect b) = snd BULLET_SIZE ->
  let b' := fst (Bullet.update dt b) in
  let killed := snd (Bullet.update dt b) in
  let x' := Vector2.x (Bullet.pos b') in
  let y' := Vector2.y (Bullet.pos b') in
  x' = (Vector2.x (Bullet.pos b) + 0 * dt)%float
  /\ y' = (Vector2.y (Bullet.pos b) + -700 * dt)%float
  /\ Bullet.vel b' = Bullet.vel b
  /\ (stored (Bullet.pos b') -> in_int_range (Bullet.rect b') ->
      Rect.h (Bullet.rect b') = snd BULLET_SIZE
      /\ Rect.center (Bullet.rect b') = (C.pg_round x', C.pg_round y')
      /\ Rect.bottom (Bullet.rect b') = C.pg_round y' + 7
      /\ (killed = true <-> Rect.bottom (Bullet.rect b') < -20)
      /\ (killed = true <-> C.pg_round y' <= -28)
      /\ (killed = true <-> (y' <=? -27.5)%float = true)).
Proof.
  intros Hv Hh. cbv zeta. unfold Bullet.update, Vector2.add, Vector2.scale. rewrite Hv.
  cbn [fst snd Bullet.pos Bullet.vel Bullet.rect Vector2.x Vector2.y].
  split; [reflexivity|]. split; [reflexivity|]. split; [reflexivity|].
  intros [_ Hy] _. cbn [Vector2.y] in Hy.
  set (y' := (Vector2.y (Bullet.pos b) + -700 * dt)%float) in *.
  pose proof (Rounding.pg_round_threshold y' (-27.5) 28 true 7740561859543040 (-48)
                eq_refl ltac:(lia) ltac:(lia) eq_refl Hy) as Hth.
  cbv beta iota in Hth. change (- (28)) with (-28) in Hth.
  unfold Rect.set_center. rewrite Rect_center_set_center_int.
  unfold Rect.bottom, Rect.set_center_int.
  cbn [fst snd Rect.y Rect.h Vector2.x Vector2.y]. rewrite Hh.
  change (snd BULLET_SIZE) with 14. change (Z.shiftr 14 1) with 7.
  rewrite Z.ltb_lt. rewrite <- Hth.
  split; [reflexivity|]. split; [reflexivity|]. split; [lia|].
  split; [reflexivity|]. split; lia.
Qed.

Lemma group_update_In {A : Type} (update : A -> A * bool) (group : list A) (a' : A) :
  In a' (group_update update group) ->
  exists a, In a group /\ update a = (a', false).
Proof.
  unfold group_update. intros Hin.
  apply in_map_iff in Hin. destruct Hin as ([a1 k] & E & Hin). cbn in E. subst a1.
  apply filter_In in Hin. destruct Hin as [Hin Hk]. cbn in Hk.
  apply negb_true_iff in Hk. subst k.
  apply in_map_iff in Hin. destruct Hin as (a & E & Hin).
  exists a. split; assumption.
Qed.

Lemma advance_enemies_on_screen (dt : float) (keys : Keys) (g : Game R) :
  Forall (fun e => Rect.top (Enemy.rect e) <= HEIGHT + 40) (enemy_group (advance dt keys g)).
Proof.
  unfold advance.
  destruct (spawn_step _ _ _ _ _) as [[t es] r].
  destruct (shooting _ _ _) as [p bs].
  destruct (update_stars _ _ _ _) as [st r']. cbn [enemy_group].
  apply Forall_forall. intros e' Hin.
  apply group_update_In in Hin. destruct Hin as (e & _ & E).
  unfold Enemy.update in E. injection E as E1 E2. subst e'.
  cbn [Enemy.rect]. apply Z.ltb_ge. exact E2.
Qed.

Lemma collide_bullets_enemies (g : Game R) :
  incl (enemy_group (collide_bullets g)) (enemy_group g).
Proof.
  destruct (collide_bullets_state g) as (_ & _ & _ & _ & He & _).
  destruct (groupcollide_spec (enemy_group g) (bullet_group g)) as (Pe & _).
  rewrite He. intros e Hin.
  apply (Permutation_in _ (Permutation_sym Pe)). apply in_or_app. right. exact Hin.
Qed.

Lemma collide_player_enemies (g : Game R) :
  incl (enemy_group (collide_player g)) (enemy_group g).
Proof.
  destruct (collide_player_cases g) as
    [(_ & ->) | [(_ & _ & _ & _ & Ee & _) | (_ & _ & _ & _ & _ & _ & _ & Ee & _)]];
    [apply incl_refl | | rewrite Ee; intros e []].
  rewrite Ee. intros e Hin. cbn [spritecollide snd] in Hin.
  apply filter_In in Hin. tauto.
Qed.

(** C7, as the code has it.  [Enemy.update(dt)] adds [4.0 * dt] to the
    phase, [sin(phase) * amplitude * dt] (with the new phase) to [x] and
    [speed * dt] to [y].  The box, 30 high, is centred on the new position
    rounded to the nearest integers, and the enemy is destroyed by the update
    exactly when the top edge of the box is below [HEIGHT + 40]: when the
    rounded new [y] is at least 656, that is when the new [y] is at least
    655.5.  The statements on the box are for a new position that [Rect]
    stores (outside the range of a C [int] the assignment raises and the
    update does not complete) and a box whose edges are C [int]s.  Collisions
    play no part: after an unpaused frame no enemy of the group has its top
    edge below [HEIGHT + 40]. *)
Theorem enemy_update_spec :
  (forall (dt : float) (e : Enemy.t),
     Rect.h (Enemy.rect e) = snd ENEMY_SIZE ->
     let e' := fst (Enemy.update dt e) in
     let killed := snd (Enemy.update dt e) in
     let x' := Vector2.x (Enemy.pos e') in
     let y' := Vector2.y (Enemy.pos e') in
     Enemy.phase e' = (Enemy.phase e + dt * 4.0)%float
     /\ x' = (Vector2.x (Enemy.pos e) + sin (Enemy.phase e') * Enemy.osc_amp e * dt)%float
     /\ y' = (Vector2.y (Enemy.pos e) + Enemy.speed e * dt)%float
     /\ Enemy.speed e' = Enemy.speed e
     /\ Enemy.osc_amp e' = Enemy.osc_amp e
     /\ (stored (Enemy.pos e') -> in_int_range (Enemy.rect e') ->
         Rect.h (Enemy.rect e') = snd ENEMY_SIZE
         /\ Rect.center (Enemy.rect e') = (C.pg_round x', C.pg_round y')
         /\ Rect.top (Enemy.rect e') = C.pg_round y' - 15
         /\ (killed = true <-> HEIGHT + 40 < Rect.top (Enemy.rect e'))
         /\ (killed = true <-> 656 <= C.pg_round y')
         /\ (killed = true <-> (655.5 <=? y')%float = true)))
  /\ (forall (dt : float) (evs : list Event) (keys : Keys) (g : Game R),
        paused (handle_events evs g) = false ->
        Forall (fun e => Rect.top (Enemy.rect e) <= HEIGHT + 40)
               (enemy_group (frame dt evs keys g))).
Proof.
  split.
  - intros dt e Hh. cbv zeta. unfold Enemy.update, Vector2.add.
    cbn [fst snd Enemy.pos Enemy.phase Enemy.speed Enemy.osc_amp Enemy.rect
         Vector2.x Vector2.y].
    split; [reflexivity|]. split; [reflexivity|]. split; [reflexivity|].
    split; [reflexivity|]. split; [reflexivity|].
    intros [_ Hy] _. cbn [Vector2.y] in Hy.
    set (y' := (Vector2.y (Enemy.pos e) + Enemy.speed e * dt)%float) in *.
    pose proof (Rounding.pg_round_threshold y' 655.5 656 false 5765838976057344 (-43)
                  eq_refl ltac:(lia) ltac:(lia) eq_refl Hy) as Hth.
    cbv beta iota in Hth.
    unfold Rect.set_center. rewrite Rect_center_set_center_int.
    unfold Rect.top, Rect.set_center_int.
    cbn [fst snd Rect.y Rect.h Vector2.x Vector2.y]. rewrite Hh.
    change (snd ENEMY_SIZE) with 30. change (Z.shiftr 30 1) with 15.
    change (HEIGHT + 40) with 640.
    rewrite Z.ltb_lt. rewrite <- Hth.
    split; [reflexivity|]. split; [reflexivity|]. split; [reflexivity|].
    split; [reflexivity|]. split; lia.
  - intros dt evs keys g Hp. unfold frame. rewrite Hp.
    apply Forall_forall. intros e Hin.
    apply collide_player_enemies, collide_bullets_enemies in Hin.
    pose proof (advance_enemies_on_screen dt keys (handle_events evs g)) as Hall.
    rewrite Forall_forall in Hall. apply Hall. exact Hin.
Qed.

(** C8, as the code has it.  [Particle.update(dt)] adds [dt] to the age and
    destroys the particle exactly when the new age has reached the lifetime;
    a destroyed particle keeps its position, velocity and alpha.  Otherwise
    the position advances by [velocity * dt], the velocity is multiplied by
    0.98 and the alpha is the integer part of [255 * (1 - age / lifetime)].
    With a lifetime of 0.5 s the alpha at age 0.25 s is 127, and at age 0.5 s
    the particle is destroyed. *)
Theorem particle_update_spec :
  (forall (dt : float) (p : Particle.t),
     let p' := fst (Particle.update dt p) in
     let killed := snd (Particle.update dt p) in
     Particle.age p' = (Particle.age p + dt)%float
     /\ Particle.lifetime p' = Particle.lifetime p
     /\ killed = Py.ge (Particle.age p') (Particle.lifetime p)
     /\ (killed = true ->
         Particle.pos p' = Particle.pos p /\ Particle.vel p' = Particle.vel p
         /\ Particle.alpha p' = Particle.alpha p)
     /\ (killed = false ->
         Particle.pos p' = Vector2.add (Particle.pos p) (Vector2.scale (Particle.vel p) dt)
         /\ Particle.vel p' = Vector2.scale (Particle.vel p) 0.98
         /\ Particle.alpha p'
            = Some (Py.trunc (255 * (1.0 - Particle.age p' / Particle.lifetime p))%float)))
  /\ Particle.alpha (fst (Particle.update 0.25 (Sample.particle_aged 0 None))) = Some 127
  /\ Particle.age (fst (Particle.update 0.25 (Sample.particle_aged 0.25 (Some 127))))
     = 0.5%float
  /\ snd (Particle.update 0.25 (Sample.particle_aged 0.25 (Some 127))) = true.
Proof.
  split; [|split; [|split]].
  - intros dt p. cbv zeta. unfold Particle.update.
    destruct (Py.ge (Particle.age p + dt) (Particle.lifetime p)) eqn:E;
      cbn [fst snd Particle.age Particle.lifetime Particle.pos Particle.vel
           Particle.alpha];
      rewrite ?E;
      (split; [reflexivity|]); (split; [reflexivity|]); (split; [reflexivity|]);
      split; intros E'; try discriminate E';
      (split; [reflexivity|]); split; reflexivity.
  - vm_compute. reflexivity.
  - vm_compute. reflexivity.
  - vm_compute. reflexivity.
Qed.
End Sprites.

(** ** The properties at work on concrete states *)

Section Examples.
Import Sample.

(** C1 at work: one life, an enemy on the player, another enemy far away. *)
Lemma soft_reset_witness :
  Player.lives (player (frame dt_16ms [] no_keys last_life)) = 3
  /\ Player.score (player (frame dt_16ms [] no_keys last_life)) = 0
  /\ enemy_group (frame dt_16ms [] no_keys last_life) = []
  /\ bullet_group (frame dt_16ms [] no_keys last_life) = []
  /\ running (frame dt_16ms [] no_keys last_life) = true.
Proof.
  destruct (soft_reset_on_last_life dt_16ms [] no_keys last_life)
    as (Hl & Hs & He & Hb & _ & Hr).
  - reflexivity.
  - vm_compute. discriminate.
  - vm_compute. discriminate.
  - repeat split; assumption.
Defined.



(** C3 at work: the interval at two scores, and a frame of 16 ms that takes
    the timer from 0.99 past the interval of score 0, spawns and restarts it. *)
Lemma spawn_interval_witness :
  Py.le (spawn_interval 20) (spawn_interval 10) = true
  /\ spawn_timer (frame dt_16ms [] no_keys spawn_due) = 0.0%float
  /\ length (enemy_group (advance dt_16ms no_keys (handle_events [] spawn_due))) = 1%nat.
Proof.
  destruct (spawn_interval_and_timer (R := nat)) as (_ & Hmono & _ & _ & _ & Hframe & _).
  split; [apply Hmono; lia|].
  destruct (Hframe dt_16ms [] no_keys spawn_due eq_refl) as (_ & Ht & He).
  split.
  - rewrite Ht. vm_compute. reflexivity.
  - rewrite He. vm_compute. reflexivity.
Defined.

(** C4 at work: a paused game with an enemy on the player. *)
Lemma paused_frame_witness :
  enemy_group (frame dt_16ms [] no_keys (game start [] [enemy_at 450 500] true))
  = [enemy_at 450 500]
  /\ player (frame dt_16ms [] no_keys (game start [] [enemy_at 450 500] true)) = start.
Proof.
  destruct (paused_frame_is_idle dt_16ms [] no_keys
              (game start [] [enemy_at 450 500] true))
    as (Hp & _ & He & _).
  - reflexivity.
  - split; assumption.
Defined.

(** C6 fails on a bullet that an update of 16 ms takes from [y = -10] to
    [y = -21.2]: it has gone past -20, the bottom edge of its box is at -14,
    and it is kept. *)
Lemma bullet_exit_counterexample :
  (Vector2.y (Bullet.pos (fst (Bullet.update dt_16ms (bullet_at 450 (-10))))) <? -20)%float
  = true
  /\ stored (Bullet.pos (fst (Bullet.update dt_16ms (bullet_at 450 (-10)))))
  /\ in_int_range (Bullet.rect (fst (Bullet.update dt_16ms (bullet_at 450 (-10)))))
  /\ Rect.bottom (Bullet.rect (fst (Bullet.update dt_16ms (bullet_at 450 (-10))))) = -14
  /\ snd (Bullet.update dt_16ms (bullet_at 450 (-10))) = false.
Proof. vm_compute. repeat split; try reflexivity; discriminate. Qed.

(** C6 as amended, at work: 16 ms take a bullet from -25 to -36.2, and out;
    they take a bullet from -16.6 to -27.8, where its box is centred on -28,
    and out as well. *)
Lemma bullet_update_witness :
  snd (Bullet.update dt_16ms (bullet_at 450 (-25))) = true
  /\ snd (Bullet.update dt_16ms (bullet_at 450 (-16.6))) = true
  /\ Rect.center (Bullet.rect (fst (Bullet.update dt_16ms (bullet_at 450 (-16.6)))))
     = (450, -28).
Proof.
  split.
  - destruct (bullet_update_spec dt_16ms (bullet_at 450 (-25)))
      as (_ & _ & _ & Hbox).
    + reflexivity.
    + reflexivity.
    + destruct Hbox as (_ & _ & _ & _ & _ & Hk).
      * vm_compute. repeat split; reflexivity.
      * vm_compute. repeat split; discriminate.
      * apply Hk. vm_compute. reflexivity.
  - destruct (bullet_update_spec dt_16ms (bullet_at 450 (-16.6)))
      as (_ & _ & _ & Hbox).
    + reflexivity.
    + reflexivity.
    + destruct Hbox as (_ & Hc & _ & _ & _ & Hk).
      * vm_compute. repeat split; reflexivity.
      * vm_compute. repeat split; discriminate.
      * split; [apply Hk; vm_compute; reflexivity|].
        rewrite Hc. vm_compute. reflexivity.
Defined.

(** C7 fails on an enemy at [y = 641]: it is below [HEIGHT + 40] before and
    after an update of 16 ms (which takes it to 641.96, the top edge of its
    box to 627), whatever [sin] is, and it is kept, by the update and by the
    whole frame. *)
Lemma enemy_exit_counterexample :
  (Py.float_of_int (HEIGHT + 40) <? Vector2.y (Enemy.pos (enemy_at 450 641)))%float = true
  /\ (forall L : Libm,
        (Py.float_of_int (HEIGHT + 40)
         <? Vector2.y (Enemy.pos (fst (@Enemy.update L dt_16ms (enemy_at 450 641)))))%float
        = true
        /\ snd (@Enemy.update L dt_16ms (enemy_at 450 641)) = false)
  /\ length (enemy_group (frame dt_16ms [] no_keys (game start [] [enemy_at 450 641] false)))
     = 1%nat.
Proof.
  split; [vm_compute; reflexivity|]. split; [|vm_compute; reflexivity].
  intros L. unfold Enemy.update, Vector2.add.
  cbn [fst snd Enemy.pos Enemy.rect Vector2.x Vector2.y].
  unfold Rect.top, Rect.set_center, Rect.set_center_int.
  cbn [fst snd Rect.y Vector2.y].
  split; vm_compute; reflexivity.
Qed.

(** C7 as amended, at work: an enemy at [y = 660] is removed, and so is one
    that 16 ms take from 655 to 655.96, where its box is centred on 656. *)
Lemma enemy_update_witness :
  snd (Enemy.update dt_16ms (enemy_at 450 660)) = true
  /\ snd (Enemy.update dt_16ms (enemy_at 450 655)) = true
  /\ Rect.center (Enemy.rect (fst (Enemy.update dt_16ms (enemy_at 450 655)))) = (450, 656).
Proof.
  split.
  - destruct (proj1 (enemy_update_spec (R := nat)) dt_16ms (enemy_at 450 660))
      as (_ & _ & _ & _ & _ & Hbox).
    + reflexivity.
    + destruct Hbox as (_ & _ & _ & _ & _ & Hk).
      * vm_compute. repeat split; reflexivity.
      * vm_compute. repeat split; discriminate.
      * apply Hk. vm_compute. reflexivity.
  - destruct (proj1 (enemy_update_spec (R := nat)) dt_16ms (enemy_at 450 655))
      as (_ & _ & _ & _ & _ & Hbox).
    + reflexivity.
    + destruct Hbox as (_ & Hc & _ & _ & _ & Hk).
      * vm_compute. repeat split; reflexivity.
      * vm_compute. repeat split; discriminate.
      * split; [apply Hk; vm_compute; reflexivity|].
        rewrite Hc. vm_compute. reflexivity.
Defined.

(** C8 fails on the alpha: at age 0.25 s of 0.5 s it is 127 where the
    formula gives 127.5, and the particle destroyed at age 0.5 s keeps the 127
    it had, it is not given 0. *)
Lemma particle_alpha_counterexample :
  (Particle.alpha (fst (Particle.update 0.25 (particle_aged 0 None))) = Some 127
   /\ (255 * (1.0 - 0.25 / 0.5))%float = 127.5%float
   /\ (Py.float_of_int 127 =? 127.5)%float = false)
  /\ (snd (Particle.update 0.25 (particle_aged 0.25 (Some 127))) = true
      /\ Particle.age (fst (Particle.update 0.25 (particle_aged 0.25 (Some 127)))) = 0.5%float
      /\ Particle.alpha (fst (Particle.update 0.25 (particle_aged 0.25 (Some 127))))
         = Some 127
      /\ Particle.alpha (fst (Particle.update 0.25 (particle_aged 0.25 (Some 127))))
         <> Some 0).
Proof. vm_compute. repeat split; try reflexivity. discriminate. Qed.

(** C8 as amended, at work. *)
Lemma particle_update_witness :
  Particle.alpha (fst (Particle.update 0.25 (particle_aged 0 None)))
  = Some (Py.trunc (255 * (1.0 - (0 + 0.25) / 0.5))%float).
Proof.
  destruct (proj1 particle_update_spec 0.25%float (particle_aged 0 None))
    as (_ & _ & _ & _ & Hlive).
  destruct Hlive as (_ & _ & Ha).
  - vm_compute. reflexivity.
  - exact Ha.
Defined.

(** C10 at work: two enemies on the player, one life lost. *)
Lemma one_life_witness :
  Player.lives (player (frame dt_16ms [] no_keys two_on_player)) = 3 - 1.
Proof.
  destruct (one_life_per_frame dt_16ms [] no_keys two_on_player) as (_ & _ & Hrun).
  destruct Hrun as (Hl & _).
  - reflexivity.
  - apply Hl.
    + vm_compute. discriminate.
    + vm_compute. reflexivity.
Defined.
End Examples.

(** * Further properties of the code *)

(** ** Events, pause and exit *)

Section Events.
Context `{Libm} {R : Type} `{RandomSource R}.

Lemma fold_handle_event (evs : list Event) :
  forall running paused : bool,
  fold_left handle_event evs (running, paused)
  = (running && negb (existsb quits evs),
     xorb paused (Nat.odd (length (filter toggles evs)))).
Proof.
  induction evs as [|ev evs IH]; intros running paused; cbn [fold_left].
  - cbn. rewrite andb_true_r, xorb_false_r. reflexivity.
  - cbn [existsb filter].
    destruct ev as [|key|]; cbn [handle_event quits toggles].
    + rewrite IH. cbn. rewrite andb_false_r. reflexivity.
    + rewrite IH.
      destruct key; cbn [orb negb length]; rewrite ?andb_false_r; try reflexivity.
      rewrite Nat.odd_succ, <- Nat.negb_odd.
      destruct paused, (Nat.odd (length (filter toggles evs))); reflexivity.
    + rewrite IH. reflexivity.
Qed.

Lemma handle_events_flags (evs : list Event) (g : Game R) :
  running (handle_events evs g) = running g && negb (existsb quits evs)
  /\ paused (handle_events evs g)
     = xorb (paused g) (Nat.odd (length (filter toggles evs))).
Proof.
  unfold handle_events. rewrite fold_handle_event. split; reflexivity.
Qed.

(** X1.  The events of a frame act on the two flags only.  The loop keeps
    running exactly when it was running and no event of the frame is a QUIT or
    a press of Escape, wherever such an event stands in the queue; the pause
    flag is flipped once for each press of P, so an even number of presses in
    one frame leaves it as it was. *)
Theorem events_set_the_flags (evs : list Event) (g : Game R) :
  running (handle_events evs g) = running g && negb (existsb quits evs)
  /\ paused (handle_events evs g)
     = xorb (paused g) (Nat.odd (length (filter toggles evs)))
  /\ player (handle_events evs g) = player g
  /\ bullet_group (handle_events evs g) = bullet_group g
  /\ enemy_group (handle_events evs g) = enemy_group g
  /\ particle_group (handle_events evs g) = particle_group g
  /\ stars (handle_events evs g) = stars g
  /\ spawn_timer (handle_events evs g) = spawn_timer g
  /\ speed_factor (handle_events evs g) = speed_factor g
  /\ rng (handle_events evs g) = rng g.
Proof.
  destruct (handle_events_flags evs g) as [Hr Hp].
  pose proof (handle_events_state evs g) as Hs.
  split; [exact Hr|]. split; [exact Hp|]. exact Hs.
Qed.

Lemma collide_bullets_flags (g : Game R) :
  running (collide_bullets g) = running g /\ paused (collide_bullets g) = paused g.
Proof.
  destruct (collide_bullets_state g) as (_ & _ & _ & _ & _ & _ & Hr & Hp & _).
  split; assumption.
Qed.

Lemma frame_running (dt : float) (evs : list Event) (keys : Keys) (g : Game R) :
  running (frame dt evs keys g) = running g && negb (existsb quits evs).
Proof.
  destruct (handle_events_flags evs g) as [Hr _]. unfold frame.
  destruct (paused (handle_events evs g)); [exact Hr|].
  destruct (collide_player_flags (collide_bullets (advance dt keys (handle_events evs g))))
    as [-> _].
  destruct (collide_bullets_flags (advance dt keys (handle_events evs g))) as [-> _].
  destruct (advance_flags dt keys (handle_events evs g)) as [-> _]. exact Hr.
Qed.

Lemma run_stopped (inputs : list Input) (g : Game R) :
  running g = false -> run inputs g = g.
Proof. intros Hr. destruct inputs; cbn [run]; [reflexivity|]. rewrite Hr. reflexivity. Qed.

(** X2.  The loop's exit.  Once [running] is false no input is read any
    more.  A frame that receives a QUIT or a press of Escape is still simulated
    in full (the exit is tested at the top of the loop only) and is the last
    one; a frame without such an event leaves the loop running, whatever
    happens in it (the loss of the last life included). *)
Theorem quit_ends_the_loop (i : Input) (rest : list Input) (g : Game R) :
  (running g = false -> run (i :: rest) g = g)
  /\ (running g = true -> existsb quits (events i) = true ->
      run (i :: rest) g = tick i g /\ running (tick i g) = false)
  /\ (running g = true -> existsb quits (events i) = false ->
      run (i :: rest) g = run rest (tick i g) /\ running (tick i g) = true).
Proof.
  split; [|split].
  - apply run_stopped.
  - intros Hr Hq. cbn [run]. rewrite Hr.
    assert (Hstop : running (tick i g) = false).
    { unfold tick. rewrite frame_running, Hr, Hq. reflexivity. }
    split; [apply run_stopped|]; exact Hstop.
  - intros Hr Hq. cbn [run]. rewrite Hr. split; [reflexivity|].
    unfold tick. rewrite frame_running, Hr, Hq. reflexivity.
Qed.
End Events.

(** ** The utility [clamp] *)

(** X3.  [clamp(v, a, b)] for arbitrary floats.  Clamping twice is clamping
    once.  A value strictly inside the bounds is returned as it is.  With
    [a < b]: a value at or below [a] gives [a], a value at or above [b] gives
    [b], and a NaN gives the upper bound [b] (the comparisons on it fail, and
    [min(b, v)] keeps [b]). *)
Theorem clamp_spec (v a b : float) :
  clamp (clamp v a b) a b = clamp v a b
  /\ ((a <? v)%float = true -> (v <? b)%float = true -> clamp v a b = v)
  /\ ((a <? b)%float = true ->
      ((v <=? a)%float = true -> clamp v a b = a)
      /\ ((b <=? v)%float = true -> clamp v a b = b)
      /\ (is_nan v = true -> clamp v a b = b)).
Proof.
  unfold clamp, Py.max, Py.min. split; [|split].
  - destruct (v <? b)%float eqn:Evb.
    + destruct (a <? v)%float eqn:Eav.
      * rewrite Evb, Eav. reflexivity.
      * destruct (a <? b)%float eqn:Eab; rewrite ?Eab;
          [destruct (a <? a)%float|]; reflexivity.
    + destruct (a <? b)%float eqn:Eab; rewrite ?Eab.
      * destruct (b <? b)%float; rewrite Eab; reflexivity.
      * reflexivity.
  - intros Eav Evb. rewrite Evb, Eav. reflexivity.
  - intros Eab. split; [|split].
    + intros Hva.
      rewrite (FloatOrder.leb_ltb_trans v a b Hva Eab).
      rewrite (FloatOrder.leb_not_ltb v a Hva). reflexivity.
    + intros Hbv. rewrite (FloatOrder.leb_not_ltb b v Hbv), Eab. reflexivity.
    + intros Hn. destruct (FloatOrder.nan_ltb v b Hn) as [-> _]. rewrite Eab. reflexivity.
Qed.

(** [clamp_spec] at work on the player's horizontal bounds. *)
Lemma clamp_spec_witness :
  clamp 10 24 876 = 24%float /\ clamp 1000 24 876 = 876%float
  /\ clamp nan 24 876 = 876%float /\ clamp 450.5 24 876 = 450.5%float.
Proof.
  destruct (clamp_spec 450.5 24 876) as (_ & Hin & _).
  destruct (proj2 (proj2 (clamp_spec 10 24 876)) ltac:(reflexivity)) as (Hlo & _).
  destruct (proj2 (proj2 (clamp_spec 1000 24 876)) ltac:(reflexivity)) as (_ & Hhi & _).
  destruct (proj2 (proj2 (clamp_spec nan 24 876)) ltac:(reflexivity)) as (_ & _ & Hnan).
  split; [apply Hlo; reflexivity|]. split; [apply Hhi; reflexivity|].
  split; [apply Hnan; reflexivity|]. apply Hin; reflexivity.
Defined.

(** ** The player's controls *)

Ltac by_held_keys keys :=
  unfold held_left, held_right, held_up, held_down;
  destruct (keys K_LEFT), (keys K_a), (keys K_RIGHT), (keys K_d),
           (keys K_UP), (keys K_w), (keys K_DOWN), (keys K_s).

(** X4.  The velocity [Player.update] sets depends on the held keys only,
    not on [dt] or on the player.  Opposite directions held together cancel;
    a single axis gives [PLAYER_SPEED] along it; a diagonal gives the same
    magnitude on both axes, [340 / sqrt 2], so the ship is never faster than
    [PLAYER_SPEED]: the squared length of the velocity is at most [340 * 340]. *)
Theorem player_velocity (dt : float) (keys : Keys) (p : Player.t) :
  let v := Player.vel (Player.update dt keys p) in
  let diag := (1 / sqrt 2 * 340)%float in
  Py.le (Vector2.length_squared v) (Py.float_of_int (PLAYER_SPEED * PLAYER_SPEED)) = true
  /\ (held_left keys = held_right keys -> Vector2.x v = 0%float)
  /\ (held_up keys = held_down keys -> Vector2.y v = 0%float)
  /\ (held_left keys <> held_right keys -> held_up keys = held_down keys ->
      Vector2.x v = if held_left keys then (-340)%float else 340%float)
  /\ (held_up keys <> held_down keys -> held_left keys = held_right keys ->
      Vector2.y v = if held_up keys then (-340)%float else 340%float)
  /\ (held_left keys <> held_right keys -> held_up keys <> held_down keys ->
      Vector2.x v = (if held_left keys then (- diag)%float else diag)
      /\ Vector2.y v = (if held_up keys then (- diag)%float else diag)).
Proof.
  cbv zeta. unfold Player.update. cbn [Player.vel]. unfold Player.move_input.
  by_held_keys keys;
    (split; [vm_compute; reflexivity|]);
    repeat split; intros; cbn [orb] in *; try congruence; vm_compute; reflexivity.
Qed.

(** [player_velocity] at work: left and up held. *)
Lemma player_velocity_witness :
  Player.vel (Player.update Sample.dt_16ms
                (fun k => match k with K_LEFT | K_w => true | _ => false end)
                Sample.start)
  = Vector2.mk (- (1 / sqrt 2 * 340)) (- (1 / sqrt 2 * 340)).
Proof.
  destruct (player_velocity Sample.dt_16ms
              (fun k => match k with K_LEFT | K_w => true | _ => false end)
              Sample.start) as (_ & _ & _ & _ & _ & Hd).
  destruct Hd as [Hx Hy]; try (vm_compute; discriminate).
  cbn [held_left held_up orb] in Hx, Hy.
  destruct (Player.vel _) as [x y]. cbn [Vector2.x Vector2.y] in Hx, Hy.
  rewrite Hx, Hy. reflexivity.
Defined.

(** X5.  The fire cooldown.  After [Player.update] the timer is never
    negative and never a NaN, whatever [dt] is; the player can shoot after the
    update exactly when [fire_timer - dt] is not above 0; and right after
    [shoot()] the timer is [PLAYER_FIRE_COOLDOWN] and the player cannot shoot. *)
Theorem fire_cooldown (dt : float) (keys : Keys) (p : Player.t) :
  Py.le 0 (Player.fire_timer (Player.update dt keys p)) = true
  /\ Player.can_shoot (Player.update dt keys p)
     = negb (Py.gt (Player.fire_timer p - dt)%float 0)
  /\ Player.fire_timer (Player.shoot p) = PLAYER_FIRE_COOLDOWN
  /\ Player.can_shoot (Player.shoot p) = false.
Proof.
  unfold Player.can_shoot, Player.update, Player.shoot, Py.max, Py.le, Py.gt.
  cbn [Player.fire_timer].
  destruct (0.0 <? Player.fire_timer p - dt)%float eqn:E.
  - split; [apply FloatFacts.ltb_leb; exact E|].
    split; [apply FloatOrder.ltb_not_leb; exact E|].
    split; reflexivity.
  - repeat split.
Qed.

(** ** The player's bounding box *)

Section PlayerBox.
Context `{Libm} {R : Type} `{RandomSource R}.

(** The player's box and position after a frame are those before it, or
    those [Player.update] gave. *)
Lemma frame_player_rect_pos (dt : float) (evs : list Event) (keys : Keys) (g : Game R) :
  (Player.rect (player (frame dt evs keys g)) = Player.rect (player g)
   /\ Player.pos (player (frame dt evs keys g)) = Player.pos (player g))
  \/ (Player.rect (player (frame dt evs keys g))
      = Player.rect (Player.update dt keys (player g))
      /\ Player.pos (player (frame dt evs keys g))
         = Player.pos (Player.update dt keys (player g))).
Proof.
  unfold frame.
  destruct (handle_events_state evs g) as (Hp & _).
  set (g0 := handle_events evs g) in *.
  destruct (paused g0); [left; rewrite Hp; split; reflexivity|]. right.
  assert (H1 : Player.rect (player (advance dt keys g0))
               = Player.rect (Player.update dt keys (player g))
               /\ Player.pos (player (advance dt keys g0))
                  = Player.pos (Player.update dt keys (player g))).
  { rewrite advance_player, Hp.
    destruct (shooting_counters keys (Player.update dt keys (player g)) (bullet_group g0))
      as (_ & _ & Hr & Hpos). split; assumption. }
  destruct (collide_bullets_state (advance dt keys g0)) as (_ & _ & Hr2 & Hp2 & _).
  set (g2 := collide_bullets (advance dt keys g0)) in *.
  destruct H1 as [H1r H1p]. rewrite <- H1r, <- H1p, <- Hr2, <- Hp2.
  destruct (collide_player_cases g2) as
    [(_ & ->) | [(_ & _ & Ep & _) | (_ & _ & _ & _ & Er & Epos & _)]].
  - split; reflexivity.
  - rewrite Ep. split; reflexivity.
  - split; assumption.
Qed.

Lemma Player_update_box (dt : float) (keys : Keys) (p : Player.t) :
  player_sized p ->
  let p' := Player.update dt keys p in
  player_sized p'
  /\ stored (Player.pos p')
  /\ rect_on_screen (Player.rect p')
  /\ Rect.center (Player.rect p')
     = (C.pg_round (Vector2.x (Player.pos p')), C.pg_round (Vector2.y (Player.pos p'))).
Proof.
  intros Hs p'.
  destruct (Player_update_on_screen dt keys p Hs) as [Hs' Hon]. fold p' in Hs', Hon.
  split; [exact Hs'|].
  assert (Hrect : Player.rect p' = Rect.set_center (Player.rect p) (Player.pos p'))
    by reflexivity.
  destruct Hon as (_ & _ & X1 & X2 & Y1 & Y2).
  destruct Hs' as [Hw Hh]. rewrite Hw in X1, X2. rewrite Hh in Y1, Y2.
  change (Py.int_truediv (fst PLAYER_SIZE) 2) with 24%float in X1, X2.
  change (Py.int_truediv (snd PLAYER_SIZE) 2) with 18%float in Y1, Y2.
  change (Py.float_of_int WIDTH - 24)%float with 876%float in X2.
  change (Py.float_of_int HEIGHT - 18)%float with 582%float in Y2.
  unfold Py.le in X1, X2, Y1, Y2.
  assert (Sx : storable (Vector2.x (Player.pos p'))).
  { apply (Rounding.between_storable 24 876); try assumption; vm_compute; reflexivity. }
  assert (Sy : storable (Vector2.y (Player.pos p'))).
  { apply (Rounding.between_storable 18 582); try assumption; vm_compute; reflexivity. }
  split; [split; assumption|].
  split.
  - pose proof (Rounding.pg_round_within (Vector2.x (Player.pos p')) 23.5 876.5 24 876
                  6614661952700416 7709775533965312 (-48) (-43)
                  eq_refl ltac:(lia) ltac:(lia) eq_refl
                  eq_refl ltac:(lia) ltac:(lia) eq_refl Sx
                  (FloatOrder.leb_trans 23.5 24 _ eq_refl X1)
                  (FloatOrder.leb_ltb_trans _ 876 876.5 X2 eq_refl)) as Bx.
    pose proof (Rounding.pg_round_within (Vector2.y (Player.pos p')) 17.5 582.5 18 582
                  4925812092436480 5123724185436160 (-48) (-43)
                  eq_refl ltac:(lia) ltac:(lia) eq_refl
                  eq_refl ltac:(lia) ltac:(lia) eq_refl Sy
                  (FloatOrder.leb_trans 17.5 18 _ eq_refl Y1)
                  (FloatOrder.leb_ltb_trans _ 582 582.5 Y2 eq_refl)) as By.
    rewrite Hrect. destruct Hs as [Hw0 Hh0].
    unfold rect_on_screen, Rect.left, Rect.right, Rect.top, Rect.bottom,
      Rect.set_center, Rect.set_center_int.
    cbn [fst snd Rect.x Rect.y Rect.w Rect.h]. rewrite Hw0, Hh0.
    change (Z.shiftr (fst PLAYER_SIZE) 1) with 24.
    change (Z.shiftr (snd PLAYER_SIZE) 1) with 18.
    change (fst PLAYER_SIZE) with 48. change (snd PLAYER_SIZE) with 36.
    change WIDTH with 900. change HEIGHT with 600. lia.
  - rewrite Hrect. unfold Rect.set_center. apply Rect_center_set_center_int.
Qed.

(** X6.  In every reachable state the player's bounding box has the size
    [PLAYER_SIZE], lies within the screen (its integer edges satisfy
    [0 <= left], [right <= WIDTH], [0 <= top], [bottom <= HEIGHT]) and is
    centred on the position rounded to the nearest integers; the position is
    one that [Rect] stores, so the assignment to [rect.center] in
    [Player.update] never raises. *)
Theorem player_box_on_screen (r : R) (inputs : list Input) :
  let p := player (run inputs (main_init r)) in
  player_sized p
  /\ stored (Player.pos p)
  /\ rect_on_screen (Player.rect p)
  /\ Rect.center (Player.rect p)
     = (C.pg_round (Vector2.x (Player.pos p)), C.pg_round (Vector2.y (Player.pos p))).
Proof.
  cbv zeta.
  set (Inv := fun p : Player.t =>
         player_sized p
         /\ stored (Player.pos p)
         /\ rect_on_screen (Player.rect p)
         /\ Rect.center (Player.rect p)
            = (C.pg_round (Vector2.x (Player.pos p)),
               C.pg_round (Vector2.y (Player.pos p)))).
  change (Inv (player (run inputs (main_init r)))).
  assert (Hinit : Inv (player (main_init r))).
  { rewrite main_init_player. split; [split; reflexivity|]. split; [|split].
    - vm_compute. repeat split; reflexivity.
    - vm_compute. repeat split; discriminate.
    - vm_compute. reflexivity. }
  generalize dependent (main_init r). clear r.
  induction inputs as [|i rest IH]; intros g Hg; cbn [run]; [exact Hg|].
  destruct (running g); [|exact Hg].
  apply IH. unfold tick.
  destruct (frame_player_rect_pos (Py.float_of_int (tick_ms i) / 1000.0)%float
              (events i) (keys i) g) as [[Er Ep] | [Er Ep]];
    unfold Inv, player_sized; rewrite Er, Ep.
  - exact Hg.
  - destruct Hg as (Hs & _).
    exact (Player_update_box _ (keys i) (player g) Hs).
Qed.
End PlayerBox.

(** ** Shooting *)

Lemma muzzle_points_exact (k : Z) :
  0 <= k <= 900 ->
  (Py.float_of_int k - Py.float_of_int 10)%float = Py.float_of_int (k - 10)
  /\ (Py.float_of_int k + Py.float_of_int 10)%float = Py.float_of_int (k + 10)
  /\ (Py.float_of_int k - Py.float_of_int 0)%float = Py.float_of_int k
  /\ (Py.float_of_int k + Py.float_of_int 0)%float = Py.float_of_int k
  /\ C.pg_round (Py.float_of_int (k - 10)) = k - 10
  /\ C.pg_round (Py.float_of_int (k + 10)) = k + 10
  /\ C.pg_round (Py.float_of_int k) = k.
Proof.
  intros Hk.
  pose proof (FloatOrder.below 901
    (fun k => Leibniz.eqb (Py.float_of_int k - Py.float_of_int 10) (Py.float_of_int (k - 10))
              && Leibniz.eqb (Py.float_of_int k + Py.float_of_int 10)
                             (Py.float_of_int (k + 10))
              && Leibniz.eqb (Py.float_of_int k - Py.float_of_int 0) (Py.float_of_int k)
              && Leibniz.eqb (Py.float_of_int k + Py.float_of_int 0) (Py.float_of_int k)
              && (C.pg_round (Py.float_of_int (k - 10)) =? k - 10)
              && (C.pg_round (Py.float_of_int (k + 10)) =? k + 10)
              && (C.pg_round (Py.float_of_int k) =? k))
    ltac:(vm_compute; reflexivity) k ltac:(lia)) as Hall.
  cbv beta in Hall.
  repeat (apply andb_prop in Hall; destruct Hall as [Hall ?]).
  repeat match goal with
         | E : Leibniz.eqb _ _ = true |- _ => apply Leibniz.eqb_spec in E
         | E : (_ =? _) = true |- _ => apply Z.eqb_eq in E
         end.
  repeat split; assumption.
Qed.

(** X7.  Shots come in pairs.  For a player whose box is on screen, when a
    fire key (Space or Z) is held and the cooldown has run out, exactly two
    bullets are added behind those in flight, in this order: one 10 px left
    and one 10 px right of the middle of the box's top edge, both at the height
    of that edge, both with velocity [(0, -700)] and a [BULLET_SIZE] box centred
    on them; the cooldown is restarted, so the player cannot shoot again at
    once.  Otherwise nothing changes. *)
Theorem shots_come_in_pairs (keys : Keys) (p : Player.t) (bullets : list Bullet.t) :
  player_sized p ->
  rect_on_screen (Player.rect p) ->
  let cx := Rect.centerx (Player.rect p) in
  let top := Rect.top (Player.rect p) in
  if (keys K_SPACE || keys K_z) && Player.can_shoot p then
    exists b1 b2,
      shooting keys p bullets = (Player.shoot p, bullets ++ [b1; b2])
      /\ bullet_shaped b1 /\ bullet_shaped b2
      /\ Bullet.pos b1 = Vector2.of_ints (cx - 10, top)
      /\ Bullet.pos b2 = Vector2.of_ints (cx + 10, top)
      /\ Rect.center (Bullet.rect b1) = (cx - 10, top)
      /\ Rect.center (Bullet.rect b2) = (cx + 10, top)
      /\ Player.can_shoot (Player.shoot p) = false
  else shooting keys p bullets = (p, bullets).
Proof.
  intros [Hw Hh] (Hl & Hr & Ht & Hb). cbv zeta. unfold shooting.
  destruct ((keys K_SPACE || keys K_z) && Player.can_shoot p); [|reflexivity].
  unfold rect_on_screen, Rect.left, Rect.right, Rect.top, Rect.bottom in *.
  rewrite Hw in Hr. rewrite Hh in Hb.
  change (fst PLAYER_SIZE) with 48 in *. change (snd PLAYER_SIZE) with 36 in *.
  change WIDTH with 900 in *. change HEIGHT with 600 in *.
  assert (Hcx : Rect.centerx (Player.rect p) = Rect.x (Player.rect p) + 24).
  { unfold Rect.centerx. rewrite Hw. reflexivity. }
  destruct (muzzle_points_exact (Rect.centerx (Player.rect p)) ltac:(lia))
    as (X1 & X2 & _ & _ & X3 & X4 & _).
  destruct (muzzle_points_exact (Rect.y (Player.rect p)) ltac:(lia))
    as (_ & _ & Y1 & Y2 & _ & _ & Y3).
  eexists _, _. split; [reflexivity|].
  unfold Rect.midtop, Vector2.of_ints, Vector2.sub, Vector2.add.
  cbn [fst snd Vector2.x Vector2.y].
  rewrite X1, X2, Y1, Y2.
  unfold Bullet.init. cbn [Bullet.pos Bullet.rect Bullet.vel].
  unfold bullet_shaped. cbn [Bullet.vel Bullet.rect].
  unfold Rect.set_center. rewrite !Rect_center_set_center_int.
  cbn [Vector2.x Vector2.y]. rewrite X3, X4, Y3.
  repeat split.
Qed.

(** [shots_come_in_pairs] at work on the player [main] starts with. *)
Lemma shots_come_in_pairs_witness :
  map (fun b => Rect.center (Bullet.rect b))
      (snd (shooting (fun k => match k with K_SPACE => true | _ => false end)
                     Sample.start []))
  = [(440, 482); (460, 482)].
Proof.
  pose proof (shots_come_in_pairs
                (fun k => match k with K_SPACE => true | _ => false end)
                Sample.start []) as Hs.
  cbv zeta in Hs.
  change ((true || false) && Player.can_shoot Sample.start) with true in Hs.
  destruct Hs as (b1 & b2 & E & _ & _ & _ & _ & C1 & C2 & _).
  - split; reflexivity.
  - vm_compute. repeat split; discriminate.
  - rewrite E. cbn [snd app map]. rewrite C1, C2. reflexivity.
Defined.

(** ** Bullets and enemies of a session *)

Section SpritesOfASession.
Context `{Libm} {R : Type} `{RandomSource R}.

Lemma advance_groups (dt : float) (keys : Keys) (g : Game R) :
  bullet_group (advance dt keys g)
  = group_update (Bullet.update dt)
      (snd (shooting keys (Player.update dt keys (player g)) (bullet_group g)))
  /\ enemy_group (advance dt keys g)
     = group_update (Enemy.update dt)
         (snd (fst (spawn_step dt (Player.score (player g)) (spawn_timer g)
                               (enemy_group g) (rng g))))
  /\ particle_group (advance dt keys g)
     = group_update (Particle.update dt) (particle_group g).
Proof.
  unfold advance.
  destruct (spawn_step _ _ _ _ _) as [[t es] r].
  destruct (shooting _ _ _) as [p bs].
  destruct (update_stars _ _ _ _). repeat split.
Qed.

Lemma collide_bullets_bullets (g : Game R) :
  incl (bullet_group (collide_bullets g)) (bullet_group g).
Proof.
  destruct (collide_bullets_state g) as (_ & _ & _ & _ & _ & Hb & _).
  destruct (groupcollide_spec (enemy_group g) (bullet_group g)) as (_ & Pb & _).
  rewrite Hb. intros b Hin.
  apply (Permutation_in _ (Permutation_sym Pb)). apply in_or_app. right. exact Hin.
Qed.

Lemma collide_player_bullets (g : Game R) :
  incl (bullet_group (collide_player g)) (bullet_group g).
Proof.
  destruct (collide_player_cases g) as
    [(_ & ->) | [(_ & _ & _ & Eb & _) | (_ & _ & _ & _ & _ & _ & Eb & _)]];
    rewrite ?Eb; [apply incl_refl | apply incl_refl | intros b []].
Qed.

Lemma shooting_bullets (keys : Keys) (p : Player.t) (bullets : list Bullet.t)
    (b : Bullet.t) :
  In b (snd (shooting keys p bullets)) ->
  In b bullets \/ exists q, b = Bullet.init q.
Proof.
  unfold shooting. destruct (_ && _); cbn [snd]; [|tauto].
  intros Hin. apply in_app_or in Hin. destruct Hin as [Hin|Hin]; [tauto|].
  right. destruct Hin as [<-|[<-|[]]]; eexists; reflexivity.
Qed.

Lemma Bullet_update_in_play (dt : float) (b b' : Bullet.t) :
  bullet_shaped b -> Bullet.update dt b = (b', false) -> bullet_in_play b'.
Proof.
  intros (Hv & Hw & Hh) E. unfold Bullet.update in E. injection E as E1 E2. subst b'.
  unfold bullet_in_play, bullet_shaped. cbn [Bullet.vel Bullet.rect Bullet.pos].
  apply Z.ltb_ge in E2.
  split; [repeat split; assumption|]. split; [assumption|]. intros _.
  unfold Rect.set_center. apply Rect_center_set_center_int.
Qed.

Lemma spawn_step_enemies (dt : float) (score : Z) (timer : float)
    (enemies : list Enemy.t) (r : R) (e : Enemy.t) :
  In e (snd (fst (spawn_step dt score timer enemies r))) ->
  In e enemies \/ enemy_shaped e.
Proof.
  unfold spawn_step. destruct (Py.ge _ _); cbn [fst snd]; [|tauto].
  unfold spawn_enemy, uniform, Enemy.init, uniform.
  repeat match goal with
         | |- context [random ?x] => destruct (random x)
         end.
  cbn [fst snd]. intros Hin. apply in_app_or in Hin.
  destruct Hin as [Hin|[<-|[]]]; [tauto|]. right. split; reflexivity.
Qed.

Lemma Enemy_update_in_play (dt : float) (e e' : Enemy.t) :
  enemy_shaped e -> Enemy.update dt e = (e', false) -> enemy_in_play e'.
Proof.
  intros (Hw & Hh) E. unfold Enemy.update in E. injection E as E1 E2. subst e'.
  unfold enemy_in_play, enemy_shaped. cbn [Enemy.rect Enemy.pos].
  apply Z.ltb_ge in E2.
  split; [repeat split; assumption|]. split; [assumption|]. intros _.
  unfold Rect.set_center. apply Rect_center_set_center_int.
Qed.

Lemma frame_sprites_in_play (dt : float) (evs : list Event) (keys : Keys) (g : Game R) :
  Forall bullet_in_play (bullet_group g) /\ Forall enemy_in_play (enemy_group g) ->
  Forall bullet_in_play (bullet_group (frame dt evs keys g))
  /\ Forall enemy_in_play (enemy_group (frame dt evs keys g)).
Proof.
  intros [Hb He]. unfold frame.
  destruct (handle_events_state evs g) as (Ep & Eb & Ee & _ & _ & Et & _ & Er).
  set (g0 := handle_events evs g) in *.
  destruct (paused g0); [rewrite Eb, Ee; split; assumption|].
  destruct (advance_groups dt keys g0) as (Ab & Ae & _).
  rewrite Forall_forall in Hb, He.
  split; apply Forall_forall.
  - intros b Hin.
    apply collide_player_bullets, collide_bullets_bullets in Hin.
    rewrite Ab in Hin. apply group_update_In in Hin. destruct Hin as (b0 & Hin & E).
    apply (Bullet_update_in_play dt b0); [|exact E].
    apply shooting_bullets in Hin. destruct Hin as [Hin|[q ->]].
    + rewrite Eb in Hin. apply Hb in Hin. apply Hin.
    + split; [|split]; reflexivity.
  - intros e Hin.
    apply collide_player_enemies, collide_bullets_enemies in Hin.
    rewrite Ae in Hin. apply group_update_In in Hin. destruct Hin as (e0 & Hin & E).
    apply (Enemy_update_in_play dt e0); [|exact E].
    apply spawn_step_enemies in Hin. destruct Hin as [Hin|Hin]; [|exact Hin].
    rewrite Ee in Hin. apply He in Hin. apply Hin.
Qed.

(** X8.  In every reachable state, every bullet in flight has the velocity
    [(0, -700)] and a [BULLET_SIZE] box whose bottom edge is not above -20, and
    every enemy has an [ENEMY_SIZE] box whose top edge is not below
    [HEIGHT + 40]; each box is centred on its sprite's position rounded to the
    nearest integers.  A sprite past its margin is never seen at a frame
    boundary.  (The states are those of the run that does not raise.) *)
Theorem sprites_in_play (r : R) (inputs : list Input) :
  Forall bullet_in_play (bullet_group (run inputs (main_init r)))
  /\ Forall enemy_in_play (enemy_group (run inputs (main_init r))).
Proof.
  assert (Hinit : Forall bullet_in_play (bullet_group (main_init r))
                  /\ Forall enemy_in_play (enemy_group (main_init r))).
  { unfold main_init. destruct (create_starfield 140 r). split; constructor. }
  generalize dependent (main_init r). clear r.
  induction inputs as [|i rest IH]; intros g Hg; cbn [run]; [exact Hg|].
  destruct (running g); [|exact Hg].
  apply IH. unfold tick. apply frame_sprites_in_play. exact Hg.
Qed.
End SpritesOfASession.

(** ** The starfield *)

Section Starfield.
Context `{Libm} {R : Type} `{RandomSource R}.

Lemma Star_update_keeps (dt sf : float) (s : Star.t) (r : R) :
  Star.size (fst (Star.update dt sf s r)) = Star.size s
  /\ Star.layer (fst (Star.update dt sf s r)) = Star.layer s
  /\ Star.base_x (fst (Star.update dt sf s r)) = Star.base_x s
  /\ Py.gt (Vector2.y (Star.pos (fst (Star.update dt sf s r))))
           (Py.float_of_int (HEIGHT + 10)) = false.
Proof.
  unfold Star.update, uniform.
  destruct (Py.gt _ _) eqn:E.
  - destruct (random r). cbn. repeat split.
  - cbn. repeat split. exact E.
Qed.

Lemma update_stars_keeps (dt sf : float) (stars : list Star.t) :
  forall r : R,
  map (fun s => (Star.size s, Star.layer s, Star.base_x s)) (fst (update_stars dt sf stars r))
  = map (fun s => (Star.size s, Star.layer s, Star.base_x s)) stars
  /\ Forall (fun s => Py.gt (Vector2.y (Star.pos s)) (Py.float_of_int (HEIGHT + 10)) = false)
            (fst (update_stars dt sf stars r)).
Proof.
  induction stars as [|s rest IH]; intros r; cbn [update_stars].
  - split; [reflexivity|constructor].
  - pose proof (Star_update_keeps dt sf s r) as (Hs & Hl & Hb & Hy).
    destruct (Star.update dt sf s r) as [s' r1]. cbn [fst] in *.
    specialize (IH r1). destruct (update_stars dt sf rest r1) as [rest' r2].
    cbn [fst map] in *. destruct IH as [IHm IHf].
    split; [rewrite Hs, Hl, Hb, IHm; reflexivity|constructor; assumption].
Qed.

Lemma create_starfield_spec (count : nat) :
  forall r : R,
  length (fst (create_starfield count r)) = count
  /\ Forall (fun s => 0 <= Star.layer s <= 2) (fst (create_starfield count r)).
Proof.
  induction count as [|n IH]; intros r; cbn [create_starfield].
  - split; [reflexivity|constructor].
  - unfold create_starfield_step, uniform, choices_layer.
    repeat match goal with
           | |- context [random ?x] => destruct (random x)
           end.
    set (layer := if (_ <? _)%float then _ else _).
    assert (Hl : 0 <= layer <= 2).
    { unfold layer. repeat match goal with
                           | |- context [if ?c then _ else _] => destruct c
                           end; lia. }
    clearbody layer.
    destruct (if 0 <? layer then randint 1 3 r2 else randint 2 4 r2) as [size r3].
    specialize (IH r3). destruct (create_starfield n r3) as [stars r4].
    cbn [fst length] in *. destruct IH as [IHl IHf].
    split; [rewrite IHl; reflexivity|]. constructor; [exact Hl|exact IHf].
Qed.

Lemma frame_stars (dt : float) (evs : list Event) (keys : Keys) (g : Game R) :
  map (fun s => (Star.size s, Star.layer s, Star.base_x s)) (stars (frame dt evs keys g))
  = map (fun s => (Star.size s, Star.layer s, Star.base_x s)) (stars g).
Proof.
  unfold frame.
  destruct (handle_events_state evs g) as (_ & _ & _ & _ & Es & _).
  set (g0 := handle_events evs g) in *.
  destruct (paused g0); [rewrite Es; reflexivity|].
  assert (Hcp : forall g1 : Game R, stars (collide_player g1) = stars g1).
  { intros g1. unfold collide_player.
    destruct (spritecollide _ _ _) as [[|e crashed] rest]; [reflexivity|].
    destruct (spawn_explosion _ _ _) as [ps r].
    destruct (_ <=? 0); [|reflexivity].
    destruct (spawn_explosion _ _ _) as [ps2 r2].
    destruct (spawn_explosions _ _ _). reflexivity. }
  assert (Hcb : forall g1 : Game R, stars (collide_bullets g1) = stars g1).
  { intros g1. unfold collide_bullets.
    destruct (groupcollide _ _) as [[hits es] bs].
    destruct (award_hits _ _ _ _) as [[p ps] r]. reflexivity. }
  rewrite Hcp, Hcb. unfold advance.
  destruct (spawn_step _ _ _ _ _) as [[t es] r].
  destruct (shooting _ _ _) as [p bs].
  pose proof (update_stars_keeps dt (update_speed_factor dt keys (speed_factor g0))
                (stars g0) r) as [Hm _].
  destruct (update_stars _ _ _ _) as [st r']. cbn [stars fst] in *.
  rewrite Hm, Es. reflexivity.
Qed.

(** X9.  The starfield lasts the session.  [Star.update] keeps a star's
    size, layer and [base_x] and never leaves it below [HEIGHT + 10] (it is
    wrapped to [y = -10]), for every [dt] and speed factor.
    [create_starfield(count)] makes exactly [count] stars, each of layer 0, 1
    or 2.  So every reachable state has the 140 stars [main] created, in the
    same order and with the same sizes and layers. *)
Theorem starfield_persists :
  (forall (dt sf : float) (s : Star.t) (r : R),
     Star.size (fst (Star.update dt sf s r)) = Star.size s
     /\ Star.layer (fst (Star.update dt sf s r)) = Star.layer s
     /\ Star.base_x (fst (Star.update dt sf s r)) = Star.base_x s
     /\ Py.gt (Vector2.y (Star.pos (fst (Star.update dt sf s r))))
              (Py.float_of_int (HEIGHT + 10)) = false)
  /\ (forall (count : nat) (r : R),
        length (fst (create_starfield count r)) = count
        /\ Forall (fun s => 0 <= Star.layer s <= 2) (fst (create_starfield count r)))
  /\ (forall (r : R) (inputs : list Input),
        let g := run inputs (main_init r) in
        length (stars g) = 140%nat
        /\ map (fun s => (Star.size s, Star.layer s, Star.base_x s)) (stars g)
           = map (fun s => (Star.size s, Star.layer s, Star.base_x s))
                 (stars (main_init r))
        /\ Forall (fun s => 0 <= Star.layer s <= 2) (stars g)).
Proof.
  split; [exact Star_update_keeps|]. split; [exact create_starfield_spec|].
  intros r inputs g.
  assert (Hmap : map (fun s => (Star.size s, Star.layer s, Star.base_x s)) (stars g)
                 = map (fun s => (Star.size s, Star.layer s, Star.base_x s))
                       (stars (main_init r))).
  { subst g. generalize (main_init r). clear r.
    induction inputs as [|i rest IH]; intros g; cbn [run]; [reflexivity|].
    destruct (running g); [|reflexivity].
    rewrite IH. unfold tick. apply frame_stars. }
  assert (Hinit : length (stars (main_init r)) = 140%nat
                  /\ Forall (fun s => 0 <= Star.layer s <= 2) (stars (main_init r))).
  { unfold main_init. pose proof (create_starfield_spec 140 r) as Hc.
    destruct (create_starfield 140 r). exact Hc. }
  destruct Hinit as [Hlen Hlay].
  split; [|split; [exact Hmap|]].
  - rewrite <- Hlen, <- (length_map (fun s => (Star.size s, Star.layer s, Star.base_x s))),
      Hmap, length_map. reflexivity.
  - pose proof (f_equal (map (fun t : Z * Z * float => snd (fst t))) Hmap) as Hl.
    rewrite !map_map in Hl. cbn [fst snd] in Hl.
    apply Forall_forall. intros s Hin.
    apply (in_map (fun x => Star.layer x)) in Hin. rewrite Hl in Hin.
    apply in_map_iff in Hin. destruct Hin as (s0 & <- & Hin0).
    rewrite Forall_forall in Hlay. apply Hlay. exact Hin0.
Qed.
End Starfield.

(** ** What the bullet pass counts *)

Section BulletPass.
Context `{Libm} {R : Type} `{RandomSource R}.

Lemma groupcollide_no_bullets (enemies : list Enemy.t) :
  groupcollide enemies [] = ([], enemies, []).
Proof.
  induction enemies as [|e rest IH]; cbn [groupcollide spritecollide filter];
    [reflexivity|]. rewrite IH. reflexivity.
Qed.

Lemma flat_map_nonempty_length {A B : Type} (f : A -> list B) (l : list A) :
  Forall (fun a => f a <> []) l -> (length l <= length (flat_map f l))%nat.
Proof.
  induction 1 as [|a l Ha _ IH]; cbn [flat_map length]; [lia|].
  rewrite length_app. destruct (f a); [congruence|cbn [length]; lia].
Qed.

(** X10.  The accounts of the bullet pass.  The score grows by 10 times the
    number of enemies that leave the group; each of them uses up at least one
    bullet, so the gain is at most 10 times the number of bullets that leave;
    18 particles are added for each.  With no bullet in flight, or no enemy,
    the pass changes nothing. *)
Theorem bullet_pass_accounts (g : Game R) :
  let g1 := collide_bullets g in
  let destroyed := (length (enemy_group g) - length (enemy_group g1))%nat in
  let used := (length (bullet_group g) - length (bullet_group g1))%nat in
  (length (enemy_group g1) <= length (enemy_group g))%nat
  /\ (length (bullet_group g1) <= length (bullet_group g))%nat
  /\ Player.score (player g1) = Player.score (player g) + 10 * Z.of_nat destroyed
  /\ (destroyed <= used)%nat
  /\ length (particle_group g1)
     = (length (particle_group g) + PARTICLE_COUNT * destroyed)%nat
  /\ (bullet_group g = [] -> g1 = g)
  /\ (enemy_group g = [] -> g1 = g).
Proof.
  cbv zeta.
  destruct (collide_bullets_state g) as (Hs & _ & _ & _ & He & Hb & _ & _ & new & Hn & Hp).
  destruct (groupcollide_spec (enemy_group g) (bullet_group g)) as (Pe & Pb & Fh & _).
  apply Permutation_length in Pe, Pb. rewrite length_app, length_map in Pe.
  rewrite length_app in Pb.
  assert (Hused : (length (fst (fst (groupcollide (enemy_group g) (bullet_group g))))
                   <= length (flat_map snd
                        (fst (fst (groupcollide (enemy_group g) (bullet_group g))))))%nat).
  { apply flat_map_nonempty_length. eapply Forall_impl; [|exact Fh].
    intros h [Hne _]. exact Hne. }
  rewrite He, Hb, Hs, Hn, length_app.
  apply (f_equal (@length _)) in Hp. rewrite length_map in Hp. rewrite Hp.
  assert (Hburst : forall hits : list (Enemy.t * list Bullet.t),
             length (flat_map (fun h => repeat (Vector2.of_ints (Rect.center (Enemy.rect (fst h))))
                                               PARTICLE_COUNT) hits)
             = (PARTICLE_COUNT * length hits)%nat).
  { induction hits as [|h hits IH]; cbn [flat_map length]; [lia|].
    rewrite length_app, repeat_length, IH. lia. }
  rewrite Hburst.
  set (hits := fst (fst (groupcollide (enemy_group g) (bullet_group g)))) in *.
  replace (length (enemy_group g)
           - length (snd (fst (groupcollide (enemy_group g) (bullet_group g)))))%nat
    with (length hits) by lia.
  repeat split; try lia.
  - intros Eb. unfold collide_bullets. rewrite Eb, groupcollide_no_bullets.
    cbn [award_hits]. destruct g; cbn in *; subst; reflexivity.
  - intros Ee. unfold collide_bullets. rewrite Ee. cbn [groupcollide award_hits].
    destruct g; cbn in *; subst; reflexivity.
Qed.
End BulletPass.

(** ** The particles of a frame *)

Section ParticlesOfAFrame.
Context `{Libm} {R : Type} `{RandomSource R}.

Lemma Particle_init_fresh (p : Z * Z) (r : R) : fresh_particle (fst (Particle.init p r)).
Proof.
  unfold Particle.init, uniform.
  repeat match goal with
         | |- context [random ?x] => destruct (random x)
         | |- context [randint ?a ?b ?x] => destruct (randint a b x)
         end.
  split; reflexivity.
Qed.

Lemma spawn_particles_fresh (n : nat) (p : Z * Z) :
  forall (group : list Particle.t) (r : R),
  exists new, fst (spawn_particles n p group r) = group ++ new
              /\ length new = n /\ Forall fresh_particle new.
Proof.
  induction n as [|n IH]; intros group r; cbn [spawn_particles].
  - exists []. rewrite app_nil_r. repeat split. constructor.
  - pose proof (Particle_init_fresh p r) as Hq.
    destruct (Particle.init p r) as [q r1]. cbn [fst] in Hq.
    destruct (IH (group ++ [q]) r1) as (new & E & Hl & Hf).
    exists (q :: new). rewrite E, <- app_assoc. cbn [length]. rewrite Hl.
    repeat split. constructor; assumption.
Qed.

Lemma spawn_explosions_fresh (centers : list (Z * Z)) :
  forall (group : list Particle.t) (r : R),
  exists new, fst (spawn_explosions centers group r) = group ++ new
              /\ length new = (PARTICLE_COUNT * length centers)%nat
              /\ Forall fresh_particle new.
Proof.
  induction centers as [|c rest IH]; intros group r; cbn [spawn_explosions].
  - exists []. rewrite app_nil_r. repeat split. constructor.
  - destruct (spawn_particles_fresh PARTICLE_COUNT c group r) as (n1 & E1 & L1 & F1).
    fold (spawn_explosion c group r) in E1.
    destruct (spawn_explosion c group r) as [g1 r1]. cbn [fst] in E1. subst g1.
    destruct (IH (group ++ n1) r1) as (n2 & E2 & L2 & F2).
    exists (n1 ++ n2). rewrite E2, <- app_assoc, length_app, L1, L2.
    split; [reflexivity|]. split; [cbn [length]; lia|].
    apply Forall_app. split; assumption.
Qed.

Lemma award_hits_fresh (hits : list (Enemy.t * list Bullet.t)) :
  forall (p : Player.t) (particles : list Particle.t) (r : R),
  exists new, snd (fst (award_hits hits p particles r)) = particles ++ new
              /\ length new = (PARTICLE_COUNT * length hits)%nat
              /\ Forall fresh_particle new.
Proof.
  induction hits as [|[e bl] rest IH]; intros p particles r; cbn [award_hits].
  - exists []. rewrite app_nil_r. repeat split. constructor.
  - destruct (spawn_particles_fresh PARTICLE_COUNT (Rect.center (Enemy.rect e)) particles r)
      as (n1 & E1 & L1 & F1).
    fold (spawn_explosion (Rect.center (Enemy.rect e)) particles r) in E1.
    destruct (spawn_explosion _ particles r) as [ps1 r1]. cbn [fst] in E1. subst ps1.
    destruct (IH (Player.set_score (Player.score p + 10) p) (particles ++ n1) r1)
      as (n2 & E2 & L2 & F2).
    exists (n1 ++ n2). rewrite E2, <- app_assoc, length_app, L1, L2.
    split; [reflexivity|]. split; [cbn [length]; lia|].
    apply Forall_app. split; assumption.
Qed.

Lemma collisions_add_fresh_particles (g : Game R) :
  exists new,
    particle_group (collide_player (collide_bullets g)) = particle_group g ++ new
    /\ (exists k, length new = (PARTICLE_COUNT * k)%nat)
    /\ Forall fresh_particle new.
Proof.
  assert (Hb : exists new,
             particle_group (collide_bullets g) = particle_group g ++ new
             /\ (exists k, length new = (PARTICLE_COUNT * k)%nat)
             /\ Forall fresh_particle new).
  { unfold collide_bullets.
    destruct (groupcollide _ _) as [[hits es] bs].
    destruct (award_hits_fresh hits (player g) (particle_group g) (rng g))
      as (new & E & L & F).
    destruct (award_hits _ _ _ _) as [[p ps] r]. cbn [fst snd] in E. subst ps.
    exists new. cbn [particle_group]. split; [reflexivity|].
    split; [exists (length hits); exact L|exact F]. }
  destruct Hb as (n1 & E1 & (k1 & L1) & F1).
  set (g1 := collide_bullets g) in *.
  unfold collide_player.
  destruct (spritecollide _ _ _) as [[|e0 crashed] rest].
  - exists n1. cbn [particle_group]. split; [exact E1|].
    split; [exists k1; exact L1|exact F1].
  - set (c := Rect.center _).
    destruct (spawn_particles_fresh PARTICLE_COUNT c (particle_group g1) (rng g1))
      as (n2 & E2 & L2 & F2).
    fold (spawn_explosion c (particle_group g1) (rng g1)) in E2.
    destruct (spawn_explosion c (particle_group g1) (rng g1)) as [ps2 r2].
    cbn [fst] in E2. subst ps2.
    destruct (_ <=? 0).
    + destruct (spawn_particles_fresh PARTICLE_COUNT c (particle_group g1 ++ n2) r2)
        as (n3 & E3 & L3 & F3).
      fold (spawn_explosion c (particle_group g1 ++ n2) r2) in E3.
      destruct (spawn_explosion c (particle_group g1 ++ n2) r2) as [ps3 r3].
      cbn [fst] in E3. subst ps3.
      destruct (spawn_explosions_fresh (map (fun e => Rect.center (Enemy.rect e)) rest)
                  ((particle_group g1 ++ n2) ++ n3) r3) as (n4 & E4 & L4 & F4).
      destruct (spawn_explosions _ _ r3) as [ps4 r4]. cbn [fst] in E4. subst ps4.
      exists (n1 ++ n2 ++ n3 ++ n4). cbn [particle_group].
      rewrite E1, <- !app_assoc. split; [reflexivity|]. split.
      * exists (k1 + 2 + length (map (fun e => Rect.center (Enemy.rect e)) rest))%nat.
        rewrite !length_app, L1, L2, L3, L4. lia.
      * repeat (apply Forall_app; split); assumption.
    + exists (n1 ++ n2). cbn [particle_group]. rewrite E1, <- app_assoc.
      split; [reflexivity|]. split.
      * exists (k1 + 1)%nat. rewrite length_app, L1, L2. lia.
      * apply Forall_app. split; assumption.
Qed.

Lemma Particle_update_fading (dt : float) (q q' : Particle.t) :
  Particle.update dt q = (q', false) -> fading_particle q'.
Proof.
  unfold Particle.update.
  destruct (Py.ge (Particle.age q + dt) (Particle.lifetime q)) eqn:E; [discriminate|].
  intros Eq. injection Eq as <-. split; [exact E|reflexivity].
Qed.

(** X11.  The particles an unpaused frame leaves are, in this order, those
    of the particles before that the update kept, and then the particles of the
    frame's explosions.  A kept particle has not reached its lifetime and
    carries the alpha computed from its age; a new one has age 0.0 and no
    alpha yet; the new ones come in whole bursts of [PARTICLE_COUNT].  No
    collision and no reset ever removes a particle. *)
Theorem particles_of_a_frame (dt : float) (evs : list Event) (keys : Keys) (g : Game R) :
  paused (handle_events evs g) = false ->
  exists new,
    particle_group (frame dt evs keys g)
    = group_update (Particle.update dt) (particle_group g) ++ new
    /\ Forall fading_particle (group_update (Particle.update dt) (particle_group g))
    /\ Forall fresh_particle new
    /\ exists k, length new = (PARTICLE_COUNT * k)%nat.
Proof.
  intros Hp. unfold frame. rewrite Hp.
  destruct (handle_events_state evs g) as (_ & _ & _ & Epg & _).
  destruct (collisions_add_fresh_particles (advance dt keys (handle_events evs g)))
    as (new & E & L & F).
  destruct (advance_groups dt keys (handle_events evs g)) as (_ & _ & Ap).
  rewrite Ap, Epg in E.
  exists new. split; [exact E|]. split; [|split; assumption].
  apply Forall_forall. intros q Hin.
  apply group_update_In in Hin. destruct Hin as (q0 & _ & Eq).
  exact (Particle_update_fading dt q0 q Eq).
Qed.

End ParticlesOfAFrame.

Section ParticlesExample.
Import Sample.

(** [particles_of_a_frame] at work: the frame that costs the last life. *)
Lemma particles_of_a_frame_witness :
  length (particle_group (frame dt_16ms [] no_keys last_life))
  = (PARTICLE_COUNT * 3)%nat.
Proof.
  destruct (particles_of_a_frame dt_16ms [] no_keys last_life)
    as (new & E & _).
  - reflexivity.
  - vm_compute. reflexivity.
Defined.
End ParticlesExample.

(** ** A player at rest *)

Module FloatZero.
Lemma is_finite_spec (x : float) :
  is_finite x = true ->
  (exists s, Prim2SF x = S754_zero s) \/ (exists s m e, Prim2SF x = S754_finite s m e).
Proof.
  unfold is_finite, is_nan, is_infinity. rewrite !eqb_spec, abs_spec.
  replace (Prim2SF infinity) with (S754_infinity false) by (vm_compute; reflexivity).
  destruct (Prim2SF x) as [s|s| |s m e]; try destruct s; cbn; try discriminate;
    intros _; [left | left | right | right]; repeat eexists.
Qed.

(** Zero times a finite float is a zero. *)
Lemma zero_mul_finite (dt : float) :
  is_finite dt = true -> exists s, Prim2SF (0 * dt) = S754_zero s.
Proof.
  intros Hf. rewrite mul_spec.
  replace (Prim2SF 0) with (S754_zero false) by (vm_compute; reflexivity).
  destruct (is_finite_spec dt Hf) as [(s & ->)|(s & m & e & ->)]; cbn; eexists; reflexivity.
Qed.

(** Adding a zero to a finite float that is not a zero changes nothing. *)
Lemma add_zero (x z : float) (s sz : bool) (m : positive) (e : Z) :
  Prim2SF x = S754_finite s m e -> Prim2SF z = S754_zero sz -> (x + z)%float = x.
Proof.
  intros Ex Ez. apply Prim2SF_inj. rewrite add_spec, Ex, Ez. reflexivity.
Qed.

(** A float at least a positive finite float is finite or [+infinity]. *)
Lemma leb_twice_finite (a x b : float) (ma mb : positive) (ea eb : Z) :
  Prim2SF a = S754_finite false ma ea -> Prim2SF b = S754_finite false mb eb ->
  (a <=? x)%float = true -> (x <=? b)%float = true ->
  exists m e, Prim2SF x = S754_finite false m e.
Proof.
  intros Ea Eb. rewrite !leb_spec, Ea, Eb. unfold SFleb.
  destruct (Prim2SF x) as [s|s| |s m e]; cbn; try destruct s; try discriminate.
  intros _ _. exists m, e. reflexivity.
Qed.

(** Two finite floats that compare equal are the same float. *)
Lemma leb_antisym_finite (a b : float) (m : positive) (e : Z) :
  Prim2SF a = S754_finite false m e ->
  (a <=? b)%float = true -> (a <? b)%float = false -> a = b.
Proof.
  intros Ea. rewrite leb_spec, ltb_spec, Ea. unfold SFleb, SFltb.
  intros Hle Hlt. apply Prim2SF_inj. rewrite Ea.
  destruct (Prim2SF b) as [s|s| |s mb eb]; cbn in Hle, Hlt; try destruct s;
    try discriminate.
  destruct (Z.compare_spec e eb); try discriminate. subst eb.
  change (Pos.compare_cont Eq m mb) with (Pos.compare m mb) in Hle, Hlt.
  destruct (Pos.compare_spec m mb); try discriminate. subst mb. reflexivity.
Qed.

(** Inside its bounds, ends included, [clamp] returns its argument. *)
Lemma clamp_inside (v a b : float) (ma mb : positive) (ea eb : Z) :
  Prim2SF a = S754_finite false ma ea -> Prim2SF b = S754_finite false mb eb ->
  (a <? b)%float = true ->
  (a <=? v)%float = true -> (v <=? b)%float = true -> clamp v a b = v.
Proof.
  intros Ea Eb Hab Hav Hvb. unfold clamp, Py.max, Py.min.
  destruct (leb_twice_finite a v b _ _ _ _ Ea Eb Hav Hvb) as (mv & ev & Ev).
  destruct (v <? b)%float eqn:Evb.
  - destruct (a <? v)%float eqn:Eav; [reflexivity|].
    exact (leb_antisym_finite a v _ _ Ea Hav Eav).
  - rewrite Hab. symmetry. exact (leb_antisym_finite v b _ _ Ev Hvb Evb).
Qed.
End FloatZero.

Lemma velocity_at_rest (keys : Keys) :
  let move := Player.move_input keys in
  let move := if Py.gt (Vector2.length_squared move) 0
              then Vector2.normalize move else move in
  let vel := Vector2.scale move (Py.float_of_int PLAYER_SPEED) in
  (held_left keys = held_right keys -> Vector2.x vel = 0%float)
  /\ (held_up keys = held_down keys -> Vector2.y vel = 0%float).
Proof.
  cbv zeta. unfold Player.move_input.
  by_held_keys keys; split; intros; cbn [orb] in *; try congruence; vm_compute; reflexivity.
Qed.

(** X12.  A player at rest stays where it is.  For a player that is on
    screen and a finite [dt]: when left and right are both held or both
    released, [Player.update] leaves [x] exactly as it was, and likewise [y]
    for up and down; the clamp and the float arithmetic add no drift, at the
    edges of the screen either. *)
Theorem player_at_rest (dt : float) (keys : Keys) (p : Player.t) :
  player_sized p -> on_screen p -> is_finite dt = true ->
  (held_left keys = held_right keys ->
   Vector2.x (Player.pos (Player.update dt keys p)) = Vector2.x (Player.pos p))
  /\ (held_up keys = held_down keys ->
      Vector2.y (Player.pos (Player.update dt keys p)) = Vector2.y (Player.pos p)).
Proof.
  intros [Hw Hh] (_ & _ & X1 & X2 & Y1 & Y2) Hdt.
  rewrite Hw in X1, X2. rewrite Hh in Y1, Y2.
  change (Py.int_truediv (fst PLAYER_SIZE) 2) with 24%float in X1, X2.
  change (Py.int_truediv (snd PLAYER_SIZE) 2) with 18%float in Y1, Y2.
  change (Py.float_of_int WIDTH - 24)%float with 876%float in X2.
  change (Py.float_of_int HEIGHT - 18)%float with 582%float in Y2.
  destruct (velocity_at_rest keys) as [Vx Vy]. cbv zeta in Vx, Vy.
  destruct (FloatZero.zero_mul_finite dt Hdt) as (sz & Ez).
  unfold Player.update. cbn [Player.pos Vector2.x Vector2.y].
  rewrite Hw, Hh.
  change (Py.int_truediv (fst PLAYER_SIZE) 2) with 24%float.
  change (Py.int_truediv (snd PLAYER_SIZE) 2) with 18%float.
  change (Py.float_of_int WIDTH - 24)%float with 876%float.
  change (Py.float_of_int HEIGHT - 18)%float with 582%float.
  set (vel := Vector2.scale _ (Py.float_of_int PLAYER_SPEED)) in *.
  unfold Vector2.add, Vector2.scale. cbn [Vector2.x Vector2.y].
  split.
  - intros Hk. rewrite (Vx Hk).
    destruct (FloatZero.leb_twice_finite 24 (Vector2.x (Player.pos p)) 876
                6755399441055744 7705377487454208 (-48) (-43) eq_refl eq_refl X1 X2)
      as (m & e & Ex).
    rewrite (FloatZero.add_zero _ _ _ _ _ _ Ex Ez).
    exact (FloatZero.clamp_inside _ 24 876 _ _ _ _ eq_refl eq_refl eq_refl X1 X2).
  - intros Hk. rewrite (Vy Hk).
    destruct (FloatZero.leb_twice_finite 18 (Vector2.y (Player.pos p)) 582
                5066549580791808 5119326138925056 (-48) (-43) eq_refl eq_refl Y1 Y2)
      as (m & e & Ey).
    rewrite (FloatZero.add_zero _ _ _ _ _ _ Ey Ez).
    exact (FloatZero.clamp_inside _ 18 582 _ _ _ _ eq_refl eq_refl eq_refl Y1 Y2).
Qed.

(** [player_at_rest] at work: no key held, at the start. *)
Lemma player_at_rest_witness :
  Vector2.x (Player.pos (Player.update Sample.dt_16ms Sample.no_keys Sample.start)) = 450%float
  /\ Vector2.y (Player.pos (Player.update Sample.dt_16ms Sample.no_keys Sample.start))
     = 500%float.
Proof.
  destruct (player_at_rest Sample.dt_16ms Sample.no_keys Sample.start) as [Hx Hy].
  - split; reflexivity.
  - unfold on_screen. vm_compute. tauto.
  - reflexivity.
  - split; [rewrite Hx by reflexivity|rewrite Hy by reflexivity]; reflexivity.
Defined.

(** ** How much a frame can add *)

Section FrameGrowth.
Context `{Libm} {R : Type} `{RandomSource R}.

Lemma group_update_length {A : Type} (update : A -> A * bool) (group : list A) :
  (length (group_update update group) <= length group)%nat.
Proof.
  unfold group_update. rewrite length_map.
  rewrite <- (length_map update group). apply filter_length_le.
Qed.

Lemma collisions_shrink (g : Game R) :
  (length (enemy_group (collide_player (collide_bullets g))) <= length (enemy_group g))%nat
  /\ (length (bullet_group (collide_player (collide_bullets g)))
      <= length (bullet_group g))%nat.
Proof.
  destruct (collide_bullets_state g) as (_ & _ & _ & _ & He & Hb & _).
  destruct (groupcollide_spec (enemy_group g) (bullet_group g)) as (Pe & Pb & _).
  apply Permutation_length in Pe, Pb. rewrite length_app in Pe, Pb.
  rewrite <- He in Pe. rewrite <- Hb in Pb.
  set (g1 := collide_bullets g) in *.
  destruct (collide_player_cases g1) as
    [(_ & ->) | [(_ & _ & _ & Eb & Ee & _) | (_ & _ & _ & _ & _ & _ & Eb & Ee & _)]].
  - split; lia.
  - rewrite Eb, Ee. cbn [spritecollide snd].
    pose proof (filter_length_le
                  (fun s => negb (Rect.colliderect (Player.rect (player g1)) (Enemy.rect s)))
                  (enemy_group g1)).
    split; lia.
  - rewrite Eb, Ee. cbn [length]. split; lia.
Qed.

Lemma frame_lengths (dt : float) (evs : list Event) (keys : Keys) (g : Game R) :
  (length (enemy_group (frame dt evs keys g)) <= 1 + length (enemy_group g))%nat
  /\ (length (bullet_group (frame dt evs keys g)) <= 2 + length (bullet_group g))%nat.
Proof.
  unfold frame.
  destruct (handle_events_state evs g) as (Ep & Eb & Ee & _ & _ & Et & _ & Er).
  set (g0 := handle_events evs g) in *.
  destruct (paused g0); [rewrite Eb, Ee; split; lia|].
  destruct (collisions_shrink (advance dt keys g0)) as [He Hb].
  destruct (advance_groups dt keys g0) as (Ab & Ae & _).
  rewrite Ab in Hb. rewrite Ae in He.
  pose proof (group_update_length (Bullet.update dt)
                (snd (shooting keys (Player.update dt keys (player g0)) (bullet_group g0))))
    as Lb.
  pose proof (group_update_length (Enemy.update dt)
                (snd (fst (spawn_step dt (Player.score (player g0)) (spawn_timer g0)
                                      (enemy_group g0) (rng g0))))) as Le.
  assert (Ls : (length (snd (shooting keys (Player.update dt keys (player g0))
                                      (bullet_group g0)))
                <= 2 + length (bullet_group g0))%nat).
  { unfold shooting. destruct (_ && _); cbn [snd]; [|lia].
    rewrite length_app. cbn [length]. lia. }
  assert (Lp : (length (snd (fst (spawn_step dt (Player.score (player g0)) (spawn_timer g0)
                                             (enemy_group g0) (rng g0))))
                <= 1 + length (enemy_group g0))%nat).
  { unfold spawn_step. destruct (Py.ge _ _); cbn [fst snd]; [|lia].
    pose proof (spawn_enemy_length (enemy_group g0) (rng g0)) as Hl.
    destruct (spawn_enemy (enemy_group g0) (rng g0)). cbn [fst snd] in *. lia. }
  rewrite Eb in *. rewrite Ee in *. split; lia.
Qed.

(** X13.  A frame adds at most one enemy and at most two bullets, however
    long it is.  An unpaused frame in which the spawn timer, [dt] added, has
    reached the interval of the score spawns exactly one enemy, which joins
    the group behind the others before the group is updated, and ends with
    the timer at 0.0: nothing of the time beyond the interval is carried
    over, so a frame of several intervals spawns once.  An unpaused frame in
    which the timer has not reached the interval spawns none and ends with the
    timer at the sum. *)
Theorem frame_growth (dt : float) (evs : list Event) (keys : Keys) (g : Game R) :
  (length (enemy_group (frame dt evs keys g)) <= 1 + length (enemy_group g))%nat
  /\ (length (bullet_group (frame dt evs keys g)) <= 2 + length (bullet_group g))%nat
  /\ (paused (handle_events evs g) = false ->
      Py.ge (spawn_timer g + dt) (spawn_interval (Player.score (player g))) = true ->
      spawn_timer (frame dt evs keys g) = 0.0%float
      /\ exists e,
           enemy_group (advance dt keys (handle_events evs g))
           = group_update (Enemy.update dt) (enemy_group g ++ [e]))
  /\ (paused (handle_events evs g) = false ->
      Py.ge (spawn_timer g + dt) (spawn_interval (Player.score (player g))) = false ->
      spawn_timer (frame dt evs keys g) = (spawn_timer g + dt)%float
      /\ enemy_group (advance dt keys (handle_events evs g))
         = group_update (Enemy.update dt) (enemy_group g)).
Proof.
  destruct (frame_lengths dt evs keys g) as [Le Lb].
  split; [exact Le|]. split; [exact Lb|]. split.
  - intros Hp Hdue. destruct (frame_spawn dt evs keys g Hp) as [Ht He].
    cbv zeta in Ht, He. rewrite Hdue in Ht, He.
    split; [exact Ht|].
    destruct (spawn_enemy_appends (enemy_group g) (rng g)) as [e Ee].
    exists e. rewrite He, Ee. reflexivity.
  - intros Hp Hdue. destruct (frame_spawn dt evs keys g Hp) as [Ht He].
    cbv zeta in Ht, He. rewrite Hdue in Ht, He.
    split; assumption.
Qed.
End FrameGrowth.

Section FrameGrowthExample.
Import Sample.

(** [frame_growth] at work: a frame of five seconds, several spawn
    intervals long, spawns one enemy and leaves the timer at 0.0. *)
Lemma frame_growth_witness :
  spawn_timer (frame (Py.float_of_int 5000 / 1000.0) [] no_keys spawn_due) = 0.0%float
  /\ length (enemy_group (frame (Py.float_of_int 5000 / 1000.0) [] no_keys spawn_due))
     = 1%nat.
Proof.
  destruct (frame_growth (Py.float_of_int 5000 / 1000.0) [] no_keys spawn_due)
    as (_ & _ & Hdue & _).
  destruct Hdue as [Ht _].
  - reflexivity.
  - vm_compute. reflexivity.
  - split; [exact Ht|]. vm_compute. reflexivity.
Defined.
End FrameGrowthExample.

Section ExitExample.
Import Sample.

(** [quit_ends_the_loop] at work: Escape in the first of two frames. *)
Lemma quit_ends_the_loop_witness :
  run [mkInput 16 [KEYDOWN K_ESCAPE] no_keys; mkInput 16 [] no_keys] two_on_player
  = tick (mkInput 16 [KEYDOWN K_ESCAPE] no_keys) two_on_player
  /\ running (tick (mkInput 16 [KEYDOWN K_ESCAPE] no_keys) two_on_player) = false.
Proof.
  apply (proj1 (proj2 (quit_ends_the_loop (mkInput 16 [KEYDOWN K_ESCAPE] no_keys)
                         [mkInput 16 [] no_keys] two_on_player))); reflexivity.
Defined.
End ExitExample.
